(** * Keithley 2400 SourceMeter driver: a shallow embedding

    Source: [lightlab/equipment/lab_instruments/visa_drivers/Keithley_2400_SM.py].

    The driver is a thin stateful wrapper around two collaborators, the VISA
    transport ([write], [query]) and the [Configurable] parameter cache
    ([setConfigParam], [getConfigParam]).  Every method of the class becomes a
    computation in a state-and-exception monad over the record [driver]; the
    sequence of messages exchanged with the instrument is kept in the field
    [log], oldest first, so that ordering properties can be stated on it.

    Python floats are idealised as exact rationals ([Q]): rounding is not
    modelled, and the non-finite values [inf] and [nan] have no counterpart. *)

From Stdlib Require Import QArith Qround Qabs Qminmax Qpower ZArith List String Ascii Lia Lqa.
From stdpp Require Import gmap strings.
Import ListNotations.

Local Open Scope string_scope.

(** ** Dynamic values, instrument traffic, exceptions *)

(** Values that travel through the parameter cache: SCPI tokens and numbers.
    Python ints and floats are both [VNum]; [1 == 1.0] holds in Python. *)
Inductive value :=
| VStr (s : string)
| VNum (q : Q).

(** Python's [==] on these values. A string never equals a number. *)
Definition py_eq (x y : value) : bool :=
  match x, y with
  | VStr a, VStr b => String.eqb a b
  | VNum a, VNum b => Qeq_bool a b
  | _, _ => false
  end.

(** Python's [x in l]. *)
Definition py_in (x : value) (l : list value) : bool := existsb (py_eq x) l.

(** What the driver does to the outside world, one event per call. *)
Inductive event :=
| Send (cmd : string)                  (* self.write(cmd) *)
| Query (cmd : string)                 (* self.query(cmd) *)
| Write (key : string) (val : value)   (* self.setConfigParam(key, val) *)
| HwRead (key : string)                (* getConfigParam fetching key from the instrument *)
| Print (args : list value).           (* print(...): the warning side channel *)

Inductive exn :=
| ValueError
| IndexError
| TypeError
| ZeroDivisionError.

Inductive res (A : Type) :=
| Ok (a : A)
| Raise (e : exn).
Arguments Ok {A} a.
Arguments Raise {A} e.

(** The instrument at the other end of the session. What it answers may
    depend on everything it has been sent so far. *)
Record instrument := {
  reply_param : list event -> string -> value;
  reply_query : list event -> string -> string
}.

(** ** Driver state *)

Record driver := mkDriver {
  _latestCurrentVal : Q;
  _latestVoltageVal : Q;
  currStep : option Q;
  voltStep : option Q;
  config : gmap string value;
  device : instrument;
  log : list event
}.

Definition M (A : Type) : Type := driver -> res (A * driver).

Definition ret {A} (a : A) : M A := fun st => Ok (a, st).

Definition bind {A B} (c : M A) (k : A -> M B) : M B :=
  fun st => match c st with
            | Ok (a, st') => k a st'
            | Raise e => Raise e
            end.

Definition raise {A} (e : exn) : M A := fun _ => Raise e.

Definition lift {A} (r : res A) : M A :=
  fun st => match r with Ok a => Ok (a, st) | Raise e => Raise e end.

Definition gets {A} (f : driver -> A) : M A := fun st => Ok (f st, st).

Definition emit (e : event) : M unit :=
  fun st => Ok (tt, mkDriver (_latestCurrentVal st) (_latestVoltageVal st)
                             (currStep st) (voltStep st) (config st)
                             (device st) (log st ++ [e])%list).

Definition set_latestCurrentVal (q : Q) : M unit :=
  fun st => Ok (tt, mkDriver q (_latestVoltageVal st) (currStep st) (voltStep st)
                             (config st) (device st) (log st)).

Definition set_latestVoltageVal (q : Q) : M unit :=
  fun st => Ok (tt, mkDriver (_latestCurrentVal st) q (currStep st) (voltStep st)
                             (config st) (device st) (log st)).

Definition set_config (c : gmap string value) : M unit :=
  fun st => Ok (tt, mkDriver (_latestCurrentVal st) (_latestVoltageVal st)
                             (currStep st) (voltStep st) c (device st) (log st)).

Notation "x <- c ;; k" := (bind c (fun x => k))
  (at level 100, c at next level, right associativity).
Notation "c ;;; k" := (bind c (fun _ => k))
  (at level 100, right associativity).

(** [for x in xs: body(x)] *)
Fixpoint for_each {A} (xs : list A) (body : A -> M unit) : M unit :=
  match xs with
  | [] => ret tt
  | x :: xs' => body x ;;; for_each xs' body
  end.

(** ** Collaborators *)

(** Transport: [write] is fire-and-forget, [query] returns the reply text. *)
Definition write (cmd : string) : M unit := emit (Send cmd).

Definition query (cmd : string) : M string :=
  st <- gets id ;;
  emit (Query cmd) ;;;
  ret (reply_query (device st) (log st) cmd).

(** Modelled from the spec: [Configurable.setConfigParam] is not among the
    sources. Section 6: it "records desired value and writes it to hardware";
    every call is one [Write] on the log. *)
Definition setConfigParam (key : string) (val : value) : M unit :=
  c <- gets config ;;
  set_config (<[key := val]> c) ;;;
  emit (Write key val).

(** Modelled from the spec: [Configurable.getConfigParam] is not among the
    sources. Section 6: it "returns cached or (if forced) freshly-queried
    hardware value". A parameter missing from the cache is fetched as well. *)
Definition getConfigParam (key : string) (forceHardware : bool) : M value :=
  st <- gets id ;;
  match forceHardware, config st !! key with
  | false, Some v => ret v
  | _, _ =>
      let v := reply_param (device st) (log st) key in
      emit (HwRead key) ;;;
      set_config (<[key := v]> (config st)) ;;;
      ret v
  end.

(** ** Numeric helpers (numpy and builtins, in exact arithmetic) *)

Local Open Scope Q_scope.

(** [np.clip(x, a_min, a_max)] is [minimum(a_max, maximum(x, a_min))]. *)
Definition clip (x a_min a_max : Q) : Q := Qmin a_max (Qmax x a_min).

(** First [k] at or after [k0] with [x <= 10 ^ k], looking at [fuel] candidates. *)
Fixpoint first_decade (x : Q) (fuel : nat) (k0 : Z) : Z :=
  match fuel with
  | O => k0
  | S fuel' => if Qle_bool x (10 ^ k0) then k0 else first_decade x fuel' (k0 + 1)%Z
  end.

(** [np.ceil(np.log10(x))] for [x > 0]. The logarithm is irrational in
    general but its ceiling is the least [k] with [x <= 10 ^ k]; for
    [x = p/q] it lies between [-(log2 q + 1)] and [log2 p + 1], and the
    search runs over that interval. *)
Definition ceil_log10 (x : Q) : Z :=
  let below := (Z.log2 (Zpos (Qden x)) + 1)%Z in
  let above := (Z.log2 (Qnum x) + 1)%Z in
  first_decade x (Z.to_nat (below + above)) (- below).

(** [10 ** np.ceil(np.log10(abs(x)))] *)
Definition needRange_of (x : Q) : Q := 10 ^ ceil_log10 (Qabs x).

(** [range(n)] as integers. *)
Definition zrange (n : Z) : list Z := map Z.of_nat (seq 0 (Z.to_nat n)).

(** [np.linspace(start, stop, num)] with the default [endpoint=True]:
    [start + i * step] for [i < num - 1], then [stop] itself; the single
    sample [start] when [num = 1]; a negative [num] is a [ValueError]. *)
Definition linspace (start stop : Q) (num : Z) : res (list Q) :=
  if (num <? 0)%Z then Raise ValueError
  else if (num =? 0)%Z then Ok []
  else if (num =? 1)%Z then Ok [start]
  else
    let step := (stop - start) / inject_Z (num - 1) in
    Ok (map (fun i => start + inject_Z i * step) (zrange (num - 1)) ++ [stop])%list.

(** [np.floor] followed by [int]. *)
Definition int_floor (x : Q) : Z := Qfloor x.

(** [x >= y] where [y] comes out of the parameter cache; comparing a float
    with a string is a [TypeError]. *)
Definition py_ge (x : Q) (y : value) : res bool :=
  match y with
  | VNum l => Ok (Qle_bool l x)
  | VStr _ => Raise TypeError
  end.

(** ** Reply parsing: [str.split] and [float] *)

(** [s.split(sep)] for a one-character separator. *)
Fixpoint split (sep : ascii) (s : string) : list string :=
  match s with
  | EmptyString => [EmptyString]
  | String c s' =>
      if Ascii.eqb c sep then EmptyString :: split sep s'
      else match split sep s' with
           | f :: fs => String c f :: fs
           | [] => [String c EmptyString]
           end
  end.

(** [l[i]] *)
Definition index {A} (l : list A) (i : nat) : res A :=
  match nth_error l i with
  | Some a => Ok a
  | None => Raise IndexError
  end.

Definition is_digit (c : ascii) : bool :=
  (48 <=? nat_of_ascii c)%nat && (nat_of_ascii c <=? 57)%nat.

Definition is_space (c : ascii) : bool :=
  let n := nat_of_ascii c in
  (n =? 32)%nat || ((9 <=? n)%nat && (n <=? 13)%nat).

Fixpoint lstrip (s : string) : string :=
  match s with
  | String c s' => if is_space c then lstrip s' else s
  | EmptyString => s
  end.

(** Reads a run of decimal digits onto the accumulator [acc]; returns the
    number read so far, how many digits were consumed, and the rest. *)
Fixpoint read_digits (s : string) (acc : Z) (n : Z) : Z * Z * string :=
  match s with
  | String c s' =>
      if is_digit c
      then read_digits s' (10 * acc + (Z.of_nat (nat_of_ascii c) - 48))%Z (n + 1)%Z
      else (acc, n, s)
  | EmptyString => (acc, n, s)
  end.

(** An optional sign: [(true, rest)] after a minus. *)
Definition read_sign (s : string) : bool * string :=
  match s with
  | String "-"%char s' => (true, s')
  | String "+"%char s' => (false, s')
  | _ => (false, s)
  end.

(** An optional exponent part [e<sign><digits>]; [None] when an [e] is not
    followed by at least one digit. *)
Definition read_exponent (s : string) : option (Z * string) :=
  match s with
  | String c s' =>
      if Ascii.eqb c "e" || Ascii.eqb c "E" then
        let '(neg, s1) := read_sign s' in
        let '(e, n, s2) := read_digits s1 0 0 in
        if (n =? 0)%Z then None
        else Some (if neg then (- e)%Z else e, s2)
      else Some (0%Z, s)
  | EmptyString => Some (0%Z, s)
  end.

(** The finite decimal literals accepted by Python's [float]: surrounding
    ASCII white space, a sign, digits with an optional point, an optional
    exponent. [None] stands for the [ValueError] on anything else; digit
    grouping with underscores and the spellings of [inf] and [nan] are left
    out, the latter having no rational value. *)
Definition parse_float (s : string) : option Q :=
  let '(neg, s1) := read_sign (lstrip s) in
  let '(ip, ni, s2) := read_digits s1 0 0 in
  let '(m, nf, s3) :=
    match s2 with
    | String "."%char s' => read_digits s' ip 0
    | _ => (ip, 0%Z, s2)
    end in
  if (ni + nf =? 0)%Z then None
  else match read_exponent s3 with
       | None => None
       | Some (e, s4) =>
           match lstrip s4 with
           | EmptyString =>
               let q := inject_Z m * 10 ^ (e - nf) in
               Some (Qred (if neg then - q else q))
           | _ => None
           end
       end.

Definition float (s : string) : res Q :=
  match parse_float s with
  | Some q => Ok q
  | None => Raise ValueError
  end.

Local Close Scope Q_scope.

(** ** The driver: class [Keithley_2400_SM] *)

Definition print (args : list value) : M unit := emit (Print args).

Definition setProtectionVoltage (protectionVoltage : value) : M unit :=
  setConfigParam "VOLT:PROT" protectionVoltage.

Definition setProtectionCurrent (protectionCurrent : value) : M unit :=
  setConfigParam "CURR:PROT" protectionCurrent.

Definition protectionVoltage : M value := getConfigParam "VOLT:PROT" false.

Definition protectionCurrent : M value := getConfigParam "CURR:PROT" false.

(** The object as the constructor finds it: class attributes
    [_latestCurrentVal = 0] and [_latestVoltageVal = 0], an empty cache. *)
Definition fresh (dev : instrument) : driver :=
  mkDriver 0 0 None None ∅ dev [].

(** [__init__]; the keyword defaults are [protectionVoltage=4],
    [protectionCurrent=200E-3], [currStep=1.0E-3], [voltStep=0.1]. *)
Definition __init__ (protV protC : value) (cStep vStep : option Q) : M unit :=
  setProtectionVoltage protV ;;;
  setProtectionCurrent protC ;;;
  fun st => Ok (tt, mkDriver (_latestCurrentVal st) (_latestVoltageVal st)
                             cStep vStep (config st) (device st) (log st)).

Definition startup : M unit := write "*RST".

Definition setPort (port : value) : M unit :=
  if py_eq port (VStr "Front") then setConfigParam "ROUT:TERM" (VStr "FRON")
  else if py_eq port (VStr "Rear") then setConfigParam "ROUT:TERM" (VStr "REAR")
  else ret tt.

(** ['"{}"'.format(s)] *)
Definition quoted (s : string) : string :=
  String (ascii_of_nat 34) (s ++ String (ascii_of_nat 34) EmptyString).

Definition __setSourceMode (isCurrentSource : bool) : M unit :=
  let '(sourceStr, meterStr) :=
    if isCurrentSource then ("CURR", "VOLT") else ("VOLT", "CURR") in
  setConfigParam "SOURCE:FUNC" (VStr sourceStr) ;;;
  setConfigParam ("SOURCE:" ++ sourceStr ++ ":MODE") (VStr "FIXED") ;;;
  setConfigParam "SENSE:FUNCTION:OFF:ALL" (VStr EmptyString) ;;;
  setConfigParam "SENSE:FUNCTION:ON" (VStr (quoted meterStr)) ;;;
  setConfigParam ("SENSE:" ++ meterStr ++ ":RANGE:AUTO") (VStr "ON") ;;;
  setConfigParam "RES:MODE" (VStr "MAN").

(** [time.sleep(time_delay)] has no counterpart: [time_delay] is [0.0] at
    every call site. *)
Definition _configCurrent (currAmps : Q) : M unit :=
  let currAmps := clip currAmps (1 # 1000000) 1 in
  (if negb (Qeq_bool currAmps 0) then
     let needRange := (10 ^ ceil_log10 (Qabs currAmps))%Q in
     setConfigParam "SOURCE:CURR:RANGE" (VNum needRange)
   else ret tt) ;;;
  setConfigParam "SOURCE:CURR" (VNum currAmps) ;;;
  set_latestCurrentVal currAmps.

Definition _configVoltage (voltVolts : Q) : M unit :=
  (if negb (Qeq_bool voltVolts 0) then
     let needRange := (10 ^ ceil_log10 (Qabs voltVolts))%Q in
     setConfigParam "SOURCE:VOLT:RANGE" (VNum needRange)
   else ret tt) ;;;
  setConfigParam "SOURCE:VOLT" (VNum voltVolts) ;;;
  set_latestVoltageVal voltVolts.

(** [int(np.floor(abs(a - b) / step))]. With a zero step Python floats
    raise [ZeroDivisionError]; numpy floats give [inf] or [nan], on which
    [int] raises: an exception either way, rendered as the former. *)
Definition nSteps_of (a b step : Q) : res Z :=
  if Qeq_bool step 0 then Raise ZeroDivisionError
  else Ok (int_floor (Qabs (a - b) / step)).

(** [np.linspace(a, b, 1 + nSteps)[1:]] *)
Definition ramp_points (a b : Q) (nSteps : Z) : res (list Q) :=
  match linspace a b (1 + nSteps) with
  | Ok l => Ok (tl l)
  | Raise e => Raise e
  end.

(** The body of [enable], with the two setters it calls as parameters:
    [enable(False)] calls [setCurrent], and [setCurrent] calls [enable()]. *)
Definition enable_with (setCurrent setVoltage : Q -> M unit)
    (newState : option bool) : M bool :=
  (match newState with
   | Some false =>
       func <- getConfigParam "SOURCE:FUNC" false ;;
       if py_eq func (VStr "CURR") then setCurrent 0%Q else setVoltage 0%Q
   | _ => ret tt
   end) ;;;
  (match newState with
   | Some b => setConfigParam "OUTP:STATE" (VNum (if b then 1 else 0))
   | None => ret tt
   end) ;;;
  retVal <- getConfigParam "OUTP:STATE" true ;;
  ret (py_in retVal [VStr "ON"; VNum 1; VStr "1"]).

(** [self.enable()]: with [newState = None] neither setter is reached. *)
Definition enable_get : M bool :=
  enable_with (fun _ => ret tt) (fun _ => ret tt) None.

Definition setCurrent (currAmps : Q) : M unit :=
  currTemp <- gets _latestCurrentVal ;;
  on <- enable_get ;;
  step <- gets currStep ;;
  match negb on, step with
  | false, Some step =>
      nSteps <- lift (nSteps_of currTemp currAmps step) ;;
      pts <- lift (ramp_points currTemp currAmps nSteps) ;;
      for_each pts (fun curr => _configCurrent curr)
  | _, _ => _configCurrent currAmps
  end.

Definition setVoltage (voltVolts : Q) : M unit :=
  voltTemp <- gets _latestVoltageVal ;;
  on <- enable_get ;;
  step <- gets voltStep ;;
  match negb on, step with
  | false, Some step =>
      nSteps <- lift (nSteps_of voltTemp voltVolts step) ;;
      pts <- lift (ramp_points voltTemp voltVolts nSteps) ;;
      for_each pts (fun volt => _configCurrent volt)
  | _, _ => _configCurrent voltVolts
  end.

Definition enable (newState : option bool) : M bool :=
  enable_with setCurrent setVoltage newState.

Definition setVoltageMode (protectionCurrent : value) : M unit :=
  enable (Some false) ;;;
  __setSourceMode false ;;;
  setProtectionCurrent protectionCurrent ;;;
  _configVoltage 0.

Definition setCurrentMode (protectionVoltage : value) : M unit :=
  enable (Some false) ;;;
  __setSourceMode true ;;;
  setProtectionVoltage protectionVoltage ;;;
  _configCurrent 0.

Definition measVoltage : M Q :=
  retStr <- query "MEASURE:VOLT?" ;;
  field <- lift (index (split "," retStr) 0) ;;
  v <- lift (float field) ;;
  limit <- protectionVoltage ;;
  over <- lift (py_ge v limit) ;;
  (if over then
     limit' <- protectionVoltage ;;
     print [VStr "Warning: Keithley compliance voltage of"; limit'; VStr "reached."] ;;;
     latest <- gets _latestCurrentVal ;;
     print [VStr "Warning: You are sourcing";
            VNum (v * latest * (1 # 1000))%Q;
            VStr "mW into the load."]
   else ret tt) ;;;
  ret v.

Definition measCurrent : M Q :=
  retStr <- query "MEASURE:CURR?" ;;
  field <- lift (index (split "," retStr) 1) ;;
  i <- lift (float field) ;;
  limit <- protectionCurrent ;;
  over <- lift (py_ge i limit) ;;
  (if over then
     limit' <- protectionCurrent ;;
     print [VStr "Warning: Keithley compliance current of"; limit'; VStr "reached."] ;;;
     latest <- gets _latestVoltageVal ;;
     print [VStr "Warning: You are sourcing";
            VNum (i * latest * (1 # 1000))%Q;
            VStr "mW into the load."]
   else ret tt) ;;;
  ret i.

(** ** Class [Keithley_2400_SM_noRamp] *)

Definition noRamp__init__ (protV protC : value) (cStep vStep : option Q) : M unit :=
  __init__ protV protC cStep vStep ;;;
  fun st => Ok (tt, mkDriver (_latestCurrentVal st) (_latestVoltageVal st)
                             None None (config st) (device st) (log st)).

(** ** A test instrument

    It answers a parameter read with the last value written to that
    parameter and every query with a fixed reading. *)

Fixpoint last_written (key : string) (evs : list event) (dflt : value) : value :=
  match evs with
  | [] => dflt
  | Write k v :: evs' => last_written key evs' (if String.eqb k key then v else dflt)
  | _ :: evs' => last_written key evs' dflt
  end.

Definition echo (reading : string) : instrument :=
  {| reply_param := fun evs key => last_written key evs (VNum 0);
     reply_query := fun _ _ => reading |}.

(** The state a computation leaves behind (the state it started in when it
    raises). *)
Definition run {A} (c : M A) (st : driver) : driver :=
  match c st with
  | Ok (_, st') => st'
  | Raise _ => st
  end.

(** A constructed driver talking to [echo], with the default keyword
    arguments. *)
Definition bench (reading : string) : driver :=
  run (__init__ (VNum 4) (VNum (200 # 1000)) (Some (1 # 1000)%Q) (Some (1 # 10)%Q))
      (fresh (echo reading)).

(** The same driver with its output switched on, and then brought to a
    current of [c] amps. *)
Definition bench_on : driver := run (enable (Some true)) (bench EmptyString).

Definition bench_at (c : Q) : driver := run (setCurrent c) bench_on.

(** A driver put in current-source mode, switched on and sourcing [c] amps
    into an instrument that answers every query with [reading]. *)
Definition bench_sourcing (reading : string) (c : Q) : driver :=
  run (setCurrent c)
      (run (enable (Some true))
           (run (setCurrentMode (VNum 4)) (bench reading))).

(** ** Vocabulary for the statements *)

(** What a computation added to the log. *)
Definition emitted (before after : driver) : list event :=
  skipn (length (log before)) (log after).

(** The values written to parameter [key], in order. *)
Fixpoint written (key : string) (evs : list event) : list value :=
  match evs with
  | [] => []
  | Write k v :: evs' =>
      if String.eqb k key then v :: written key evs' else written key evs'
  | _ :: evs' => written key evs'
  end.

(** Whether the event is a parameter write. *)
Definition is_write (e : event) : bool :=
  match e with Write _ _ => true | _ => false end.

(** The clamp applied by [_configCurrent]. *)
Definition clamp (x : Q) : Q := clip x (1 # 1000000) 1.

Definition in_range (x : Q) : Prop := (1 # 1000000 <= x <= 1)%Q.

(** The two writes of one [_configCurrent] call that commands [c]. *)
Definition curr_events (c : Q) : list event :=
  [Write "SOURCE:CURR:RANGE" (VNum (needRange_of c)); Write "SOURCE:CURR" (VNum c)].

(** The output is on: this is what [enable()] reports in state [st]. *)
Definition output_on (st : driver) : bool :=
  py_in (reply_param (device st) (log st) "OUTP:STATE") [VStr "ON"; VNum 1; VStr "1"].


(** What a run leaves alone: the session, the step sizes, and (for the
    current path) the persisted voltage. *)
Definition same_setup (st st' : driver) : Prop :=
  device st' = device st /\ currStep st' = currStep st /\
  voltStep st' = voltStep st /\ _latestVoltageVal st' = _latestVoltageVal st.

(** [c] only ever appends events satisfying [P] to the log. *)
Definition emits {A} (P : event -> Prop) (c : M A) : Prop :=
  forall st a st', c st = Ok (a, st') ->
    exists evs, log st' = (log st ++ evs)%list /\ Forall P evs.

(** A write to [SOURCE:CURR] carries a number within the clamp range. *)
Definition curr_write_ok (e : event) : Prop :=
  match e with
  | Write k v => k = "SOURCE:CURR" -> exists c, v = VNum c /\ in_range c
  | _ => True
  end.

(** The event does not write parameter [key]. *)
Definition not_write_to (key : string) (e : event) : Prop :=
  match e with
  | Write k _ => k <> key
  | _ => True
  end.

(** The clamping law in the words of the specification: the magnitude of a
    request outside [[1e-6, 1.0]] is brought to the nearest bound and the sign
    of the request is kept. [c] is the value commanded for request [x]. *)
Definition magnitude_clamp_law (x c : Q) : Prop :=
  ((Qabs x < 1 # 1000000)%Q -> (Qabs c == 1 # 1000000)%Q) /\
  ((1 < Qabs x)%Q -> (Qabs c == 1)%Q) /\
  ((x < 0)%Q -> (c < 0)%Q) /\
  ((0 < x)%Q -> (0 < c)%Q).

(** The numbers among a list of values. *)
Definition numbers (vs : list value) : list Q :=
  flat_map (fun v => match v with VNum q => [q] | VStr _ => [] end) vs.

(** The currents written to [SOURCE:CURR] between two states. *)
Definition currents_written (before after : driver) : list Q :=
  numbers (written "SOURCE:CURR" (emitted before after)).

(** What [getConfigParam('SOURCE:FUNC')] answers in state [st]: the cached
    source function, or the instrument's when the cache has none. *)
Definition source_func (st : driver) : value :=
  match config st !! "SOURCE:FUNC" with
  | Some v => v
  | None => reply_param (device st) (log st) "SOURCE:FUNC"
  end.

(** A computation that leaves the setup of the driver alone. *)
Definition keeps {A} (c : M A) : Prop :=
  forall st a st', c st = Ok (a, st') -> same_setup st st'.

(** The value a run returns, without the state. *)
Definition result {A} (r : res (A * driver)) : res A :=
  match r with
  | Ok (a, _) => Ok a
  | Raise e => Raise e
  end.

(** [sep.join(fields)] *)
Fixpoint join (sep : ascii) (fields : list string) : string :=
  match fields with
  | [] => EmptyString
  | [f] => f
  | f :: fs => f ++ String sep (join sep fs)
  end.

(** Whether character [c] occurs in [s]. *)
Fixpoint has_char (c : ascii) (s : string) : bool :=
  match s with
  | EmptyString => false
  | String c' s' => Ascii.eqb c' c || has_char c s'
  end.

(** The two lines of a compliance warning: the limit reached and the power
    figure. *)
Definition warning (what : string) (limit : value) (figure : Q) : list event :=
  [Print [VStr what; limit; VStr "reached."];
   Print [VStr "Warning: You are sourcing"; VNum figure; VStr "mW into the load."]].

(** ** Vocabulary for the further properties *)


(** A driver put in voltage-source mode and switched on. *)
Definition bench_volt : driver :=
  run (enable (Some true)) (run (setVoltageMode (VNum (1 # 20))) (bench EmptyString)).

(** [c] leaves the observation [f] of the driver as it found it. *)
Definition preserves {A B} (f : driver -> B) (c : M A) : Prop :=
  forall st a st', c st = Ok (a, st') -> f st' = f st.

(** The persisted setpoints and the step sizes. *)
Definition setpoints (st : driver) : Q * Q * option Q * option Q :=
  (_latestCurrentVal st, _latestVoltageVal st, currStep st, voltStep st).

(** What the cache holds for [key]. *)
Definition cached (key : string) (st : driver) : option value := config st !! key.

(** The traffic of a ramp on the current path: reads, and writes to
    [SOURCE:CURR] and its range. *)
Definition ramp_event (e : event) : Prop :=
  match e with
  | HwRead _ => True
  | Write k _ => k = "SOURCE:CURR" \/ k = "SOURCE:CURR:RANGE"
  | _ => False
  end.

(** The six writes of [__setSourceMode], for a sourced and a sensed
    quantity. *)
Definition mode_events (sourceStr meterStr : string) : list event :=
  [Write "SOURCE:FUNC" (VStr sourceStr);
   Write ("SOURCE:" ++ sourceStr ++ ":MODE") (VStr "FIXED");
   Write "SENSE:FUNCTION:OFF:ALL" (VStr EmptyString);
   Write "SENSE:FUNCTION:ON" (VStr (quoted meterStr));
   Write ("SENSE:" ++ meterStr ++ ":RANGE:AUTO") (VStr "ON");
   Write "RES:MODE" (VStr "MAN")].

(** The step sizes are unset or positive. *)
Definition steps_usable (st : driver) : Prop :=
  (currStep st = None \/ exists s, currStep st = Some s /\ (0 < s)%Q) /\
  (voltStep st = None \/ exists s, voltStep st = Some s /\ (0 < s)%Q).


(** The reply the instrument gives to [cmd] in state [st]. *)
Definition reply_to (cmd : string) (st : driver) : string :=
  reply_query (device st) (log st) cmd.

(** * Properties *)

Local Open Scope Q_scope.

(** ** The helpers on concrete inputs *)

Example ceil_log10_of_a_microamp : ceil_log10 (1 # 1000000) = (-6)%Z.
Proof. reflexivity. Qed.

Example ceil_log10_of_two_microamps : ceil_log10 (2 # 1000000) = (-5)%Z.
Proof. reflexivity. Qed.

Example ceil_log10_of_one : ceil_log10 1 = 0%Z.
Proof. reflexivity. Qed.

Example ceil_log10_of_a_thousand_and_one : ceil_log10 1001 = 4%Z.
Proof. reflexivity. Qed.

Example needRange_of_5_mA : needRange_of (5 # 1000) == 1 # 100.
Proof. reflexivity. Qed.

Example needRange_of_minus_30 : needRange_of (- 30) == 100.
Proof. reflexivity. Qed.

Example clip_of_a_negative_request : clip (- 2) (1 # 1000000) 1 = 1 # 1000000.
Proof. reflexivity. Qed.

Example clip_of_a_large_request : clip 5 (1 # 1000000) 1 = 1.
Proof. reflexivity. Qed.

Example linspace_of_three : linspace 0 1 3 = Ok [0 + 0 * ((1 - 0) / 2); 0 + 1 * ((1 - 0) / 2); 1].
Proof. reflexivity. Qed.

Example linspace_of_one : linspace 3 7 1 = Ok [3].
Proof. reflexivity. Qed.

Example linspace_of_a_negative_count : linspace 3 7 (-1) = Raise ValueError.
Proof. reflexivity. Qed.

Example ramp_points_below_one_step : ramp_points 0 (1 # 2000) 0 = Ok [].
Proof. reflexivity. Qed.

Example nSteps_of_5_mA : nSteps_of 0 (5 # 1000) (1 # 1000) = Ok 5%Z.
Proof. reflexivity. Qed.

Example nSteps_of_half_a_step : nSteps_of 0 (1 # 2000) (1 # 1000) = Ok 0%Z.
Proof. reflexivity. Qed.

Example split_of_a_reply : split "," "1.5,0.02" = ["1.5"; "0.02"]%string.
Proof. reflexivity. Qed.

Example split_of_nothing : split "," EmptyString = [EmptyString].
Proof. reflexivity. Qed.

Example float_of_scientific : float " +1.500000E+00" = Ok (3 # 2).
Proof. reflexivity. Qed.

Example float_of_negative : float "-2.5e-3" = Ok (-1 # 400).
Proof. reflexivity. Qed.

Example float_of_a_lone_point : float "." = Raise ValueError.
Proof. reflexivity. Qed.

Example float_of_text : float "volts" = Raise ValueError.
Proof. reflexivity. Qed.

(** ** Clamping *)

(** Case analysis on the maximum and the minimum inside [clip x lo hi]. *)
Ltac clip_cases x lo hi :=
  unfold clip;
  destruct (Q.max_spec x lo) as [[? ?E] | [? ?E]];
  destruct (Q.min_spec hi (Qmax x lo)) as [[? ?E] | [? ?E]];
  repeat match goal with E : _ == _ |- _ => rewrite E in *; clear E end;
  try lra.

Lemma clip_bounds (x lo hi : Q) : lo <= hi -> lo <= clip x lo hi <= hi.
Proof. intros Hlh. clip_cases x lo hi. Qed.

Lemma clip_inside (x lo hi : Q) : lo <= x <= hi -> clip x lo hi == x.
Proof. intros [Hl Hh]. clip_cases x lo hi. Qed.

Lemma clip_below (x lo hi : Q) : lo <= hi -> x <= lo -> clip x lo hi == lo.
Proof. intros Hlh Hx. clip_cases x lo hi. Qed.

Lemma clip_above (x lo hi : Q) : lo <= hi -> hi <= x -> clip x lo hi == hi.
Proof. intros Hlh Hx. clip_cases x lo hi. Qed.


#[local] Instance clip_comp : Proper (Qeq ==> Qeq ==> Qeq ==> Qeq) clip.
Proof.
  intros x x' Hx lo lo' Hl hi hi' Hh. unfold clip. now rewrite Hx, Hl, Hh.
Qed.

(** ** Decade selection *)

Lemma first_decade_range (x : Q) (fuel : nat) (k0 : Z) :
  (k0 <= first_decade x fuel k0 <= k0 + Z.of_nat fuel)%Z.
Proof.
  revert k0. induction fuel as [| fuel IH]; intros k0; cbn [first_decade].
  - lia.
  - destruct (Qle_bool x (10 ^ k0)); [lia |].
    specialize (IH (k0 + 1)%Z). lia.
Qed.




Lemma pow10_pos (k : Z) : 0 < 10 ^ k.
Proof. apply Qpower_0_lt. lra. Qed.





(** ** Running the primitives *)

Lemma emitted_app (st st' : driver) (evs : list event) :
  log st' = (log st ++ evs)%list -> emitted st st' = evs.
Proof.
  intros H. unfold emitted. rewrite H.
  rewrite skipn_app, skipn_all, Nat.sub_diag. reflexivity.
Qed.

Lemma clamp_in_range (x : Q) : in_range (clamp x).
Proof. apply clip_bounds. lra. Qed.

Lemma clamp_nonzero (x : Q) : Qeq_bool (clamp x) 0 = false.
Proof.
  destruct (Qeq_bool (clamp x) 0) eqn:E; [| reflexivity].
  apply Qeq_bool_iff in E. pose proof (clamp_in_range x) as [H _]. lra.
Qed.

Lemma same_setup_refl (st : driver) : same_setup st st.
Proof. repeat split. Qed.

Lemma same_setup_trans (s1 s2 s3 : driver) :
  same_setup s1 s2 -> same_setup s2 s3 -> same_setup s1 s3.
Proof. unfold same_setup. intuition congruence. Qed.

Lemma _configCurrent_run (x : Q) (st : driver) :
  exists st',
    _configCurrent x st = Ok (tt, st') /\
    log st' = (log st ++ curr_events (clamp x))%list /\
    _latestCurrentVal st' = clamp x /\
    same_setup st st'.
Proof.
  unfold _configCurrent. fold (clamp x).
  unfold bind at 1. rewrite clamp_nonzero. cbn.
  eexists. split; [reflexivity |]. cbn.
  rewrite <- app_assoc. repeat split.
Qed.

Lemma enable_get_run (st : driver) :
  exists st',
    enable_get st = Ok (output_on st, st') /\
    log st' = (log st ++ [HwRead "OUTP:STATE"])%list /\
    _latestCurrentVal st' = _latestCurrentVal st /\
    same_setup st st'.
Proof.
  unfold enable_get, enable_with, output_on. cbn.
  eexists. split; [reflexivity |]. cbn. repeat split.
Qed.

(** ** A small logic for what a computation may append to the log *)

Section Emits.
Context (P : event -> Prop).

Lemma emits_ret {A} (a : A) : emits P (ret a).
Proof.
  intros st a' st' H. injection H as _ <-.
  exists []. now rewrite app_nil_r.
Qed.

Lemma emits_gets {A} (f : driver -> A) : emits P (gets f).
Proof.
  intros st a' st' H. injection H as _ <-.
  exists []. now rewrite app_nil_r.
Qed.

Lemma emits_lift {A} (r : res A) : emits P (lift r).
Proof.
  intros st a' st' H. destruct r; [| discriminate]. injection H as _ <-.
  exists []. now rewrite app_nil_r.
Qed.

Lemma emits_raise {A} (e : exn) : emits P (@raise A e).
Proof. intros st a' st' H. discriminate. Qed.

Lemma emits_emit (e : event) : P e -> emits P (emit e).
Proof.
  intros He st a' st' H. injection H as _ <-.
  exists [e]. split; [reflexivity | now constructor].
Qed.

Lemma emits_set_config (c : gmap string value) : emits P (set_config c).
Proof.
  intros st a' st' H. injection H as _ <-.
  exists []. now rewrite app_nil_r.
Qed.

Lemma emits_set_latestCurrentVal (q : Q) : emits P (set_latestCurrentVal q).
Proof.
  intros st a' st' H. injection H as _ <-.
  exists []. now rewrite app_nil_r.
Qed.

Lemma emits_set_latestVoltageVal (q : Q) : emits P (set_latestVoltageVal q).
Proof.
  intros st a' st' H. injection H as _ <-.
  exists []. now rewrite app_nil_r.
Qed.

Lemma emits_bind {A B} (c : M A) (k : A -> M B) :
  emits P c -> (forall a, emits P (k a)) -> emits P (bind c k).
Proof.
  intros Hc Hk st b st' H. unfold bind in H.
  destruct (c st) as [[a st1] |] eqn:E; [| discriminate].
  destruct (Hc _ _ _ E) as (evs1 & L1 & F1).
  destruct (Hk a _ _ _ H) as (evs2 & L2 & F2).
  exists (evs1 ++ evs2)%list. split.
  - now rewrite L2, L1, app_assoc.
  - apply Forall_app. now split.
Qed.

Lemma emits_for_each {A} (xs : list A) (body : A -> M unit) :
  (forall x, emits P (body x)) -> emits P (for_each xs body).
Proof.
  intros Hb. induction xs as [| x xs IH]; cbn [for_each].
  - apply emits_ret.
  - apply emits_bind; [apply Hb | intros _; exact IH].
Qed.

Lemma emits_setConfigParam (key : string) (val : value) :
  P (Write key val) -> emits P (setConfigParam key val).
Proof.
  intros H. unfold setConfigParam.
  apply emits_bind; [apply emits_gets | intros c].
  apply emits_bind; [apply emits_set_config | intros _].
  now apply emits_emit.
Qed.

Lemma emits_getConfigParam (key : string) (force : bool) :
  P (HwRead key) -> emits P (getConfigParam key force).
Proof.
  intros H. unfold getConfigParam.
  apply emits_bind; [apply emits_gets | intros st0].
  assert (Hfetch : emits P
    (emit (HwRead key);;;
     set_config (<[key:=reply_param (device st0) (log st0) key]> (config st0));;;
     ret (reply_param (device st0) (log st0) key))).
  { apply emits_bind; [now apply emits_emit | intros _].
    apply emits_bind; [apply emits_set_config | intros _]. apply emits_ret. }
  destruct force; [exact Hfetch |].
  destruct (config st0 !! key); [apply emits_ret | exact Hfetch].
Qed.
End Emits.

Section EmitsDriver.
Context (P : event -> Prop).
Hypothesis P_read_state : P (HwRead "OUTP:STATE").
Hypothesis P_curr : forall c, in_range c -> Forall P (curr_events c).

Lemma emits__configCurrent (x : Q) : emits P (_configCurrent x).
Proof.
  intros st [] st' H.
  destruct (_configCurrent_run x st) as (st1 & R & L & _).
  rewrite R in H. injection H as <-.
  exists (curr_events (clamp x)). split; [exact L |].
  apply P_curr, clamp_in_range.
Qed.

Lemma emits_enable_get : emits P enable_get.
Proof.
  intros st b st' H.
  destruct (enable_get_run st) as (st1 & R & L & _).
  rewrite R in H. injection H as _ <-.
  exists [HwRead "OUTP:STATE"]. split; [exact L | now constructor].
Qed.

Lemma emits_setCurrent (currAmps : Q) : emits P (setCurrent currAmps).
Proof.
  unfold setCurrent.
  apply emits_bind; [apply emits_gets | intros currTemp].
  apply emits_bind; [apply emits_enable_get | intros on].
  apply emits_bind; [apply emits_gets | intros step].
  destruct (negb on), step as [step |]; try apply emits__configCurrent.
  apply emits_bind; [apply emits_lift | intros nSteps].
  apply emits_bind; [apply emits_lift | intros pts].
  apply emits_for_each. intros curr. apply emits__configCurrent.
Qed.

Lemma emits_setVoltage (voltVolts : Q) : emits P (setVoltage voltVolts).
Proof.
  unfold setVoltage.
  apply emits_bind; [apply emits_gets | intros voltTemp].
  apply emits_bind; [apply emits_enable_get | intros on].
  apply emits_bind; [apply emits_gets | intros step].
  destruct (negb on), step as [step |]; try apply emits__configCurrent.
  apply emits_bind; [apply emits_lift | intros nSteps].
  apply emits_bind; [apply emits_lift | intros pts].
  apply emits_for_each. intros volt. apply emits__configCurrent.
Qed.

Hypothesis P_read_func : P (HwRead "SOURCE:FUNC").
Hypothesis P_write_state : forall v, P (Write "OUTP:STATE" v).

Lemma emits_enable (newState : option bool) : emits P (enable newState).
Proof.
  unfold enable, enable_with.
  apply emits_bind; [| intros _; apply emits_bind; [| intros _]].
  - destruct newState as [[] |]; try apply emits_ret.
    apply emits_bind; [now apply emits_getConfigParam | intros func].
    destruct (py_eq func (VStr "CURR")); [apply emits_setCurrent | apply emits_setVoltage].
  - destruct newState as [b |]; [| apply emits_ret].
    apply emits_setConfigParam, P_write_state.
  - apply emits_bind; [now apply emits_getConfigParam | intros retVal].
    apply emits_ret.
Qed.
End EmitsDriver.

Lemma curr_events_ok (c : Q) : in_range c -> Forall curr_write_ok (curr_events c).
Proof.
  intros Hc. repeat constructor.
  - intros H. discriminate H.
  - intros _. now exists c.
Qed.

Lemma curr_events_not_write_to (key : string) (c : Q) :
  key <> "SOURCE:CURR" -> key <> "SOURCE:CURR:RANGE" ->
  Forall (not_write_to key) (curr_events c).
Proof. intros H1 H2. repeat constructor; cbn; congruence. Qed.

Lemma emits_emitted {A} (P : event -> Prop) (c : M A) (st st' : driver) (a : A) :
  emits P c -> c st = Ok (a, st') -> Forall P (emitted st st').
Proof.
  intros Hc H. destruct (Hc _ _ _ H) as (evs & L & F).
  now rewrite (emitted_app _ _ _ L).
Qed.

Lemma emits_setCurrentMode (protectionVoltage : value) :
  emits curr_write_ok (setCurrentMode protectionVoltage).
Proof.
  unfold setCurrentMode.
  apply emits_bind; [| intros _].
  { apply emits_enable; cbn; auto using curr_events_ok. intros v H. discriminate H. }
  apply emits_bind; [| intros _].
  { unfold __setSourceMode.
    repeat (apply emits_bind; [| intros _]);
      apply emits_setConfigParam; intros H; discriminate H. }
  apply emits_bind; [| intros _].
  { apply emits_setConfigParam. intros H. discriminate H. }
  apply emits__configCurrent. apply curr_events_ok.
Qed.

(** ** Output state *)

(** [enable()] is the body of [enable] at [newState = None]. *)
Lemma enable_None : enable None = enable_get.
Proof. reflexivity. Qed.

(** C9: [enable()] without an argument writes nothing: its whole traffic is
    one read of [OUTP:STATE] from the instrument, whatever the cache holds,
    both persisted setpoints stay as they were, and the result is true
    exactly when the value read is ['ON'], a number equal to 1, or ['1']. *)
Theorem enable_without_argument_only_reads (st : driver) :
  let v := reply_param (device st) (log st) "OUTP:STATE" in
  exists st',
    enable None st = Ok (py_in v [VStr "ON"; VNum 1; VStr "1"], st') /\
    emitted st st' = [HwRead "OUTP:STATE"] /\
    _latestCurrentVal st' = _latestCurrentVal st /\
    _latestVoltageVal st' = _latestVoltageVal st /\
    (py_in v [VStr "ON"; VNum 1; VStr "1"] = true <->
     v = VStr "ON" \/ (exists q, v = VNum q /\ q == 1) \/ v = VStr "1").
Proof.
  intros v.
  destruct (enable_get_run st) as (st' & R & L & Hc & Hs).
  exists st'. split; [exact R |]. split; [now apply emitted_app |].
  split; [exact Hc |]. split; [apply Hs |].
  unfold py_in, existsb, py_eq. destruct v as [s | q].
  - rewrite orb_false_r. cbn [orb]. rewrite orb_true_iff, !String.eqb_eq. split.
    + intros [-> | ->]; auto.
    + intros [H | [(q & H & _) | H]]; try discriminate H; injection H as ->; auto.
  - rewrite orb_false_r. cbn [orb]. rewrite Qeq_bool_iff. split.
    + intros H. right. left. now exists q.
    + intros [H | [(q' & H & E) | H]]; try discriminate H. now injection H as ->.
Qed.

(** ** Commanded current *)

Lemma bind_Ok {A B} (c : M A) (k : A -> M B) (st st' : driver) (b : B) :
  bind c k st = Ok (b, st') ->
  exists a st1, c st = Ok (a, st1) /\ k a st1 = Ok (b, st').
Proof.
  unfold bind. destruct (c st) as [[a st1] |]; [| discriminate].
  intros H. now exists a, st1.
Qed.




(** C3, as measured on the code: the clamp of [_configCurrent] acts on the
    signed request. A request below 1e-6 (zero and every negative request
    included) is commanded as 1e-6, a request above 1.0 as 1.0, and a request
    inside the interval unchanged; the value commanded is the one written to
    [SOURCE:CURR] and persisted. *)
Theorem clamp_acts_on_signed_value (x : Q) (st : driver) :
  exists st' c,
    _configCurrent x st = Ok (tt, st') /\
    written "SOURCE:CURR" (emitted st st') = [VNum c] /\
    _latestCurrentVal st' = c /\
    (x < 1 # 1000000 -> c == 1 # 1000000) /\
    (1 < x -> c == 1) /\
    (1 # 1000000 <= x <= 1 -> c == x).
Proof.
  destruct (_configCurrent_run x st) as (st' & R & L & Hc & _).
  exists st', (clamp x). split; [exact R |].
  split; [now rewrite (emitted_app _ _ _ L) |].
  split; [exact Hc |].
  repeat split; intros H.
  - apply clip_below; lra.
  - apply clip_above; lra.
  - now apply clip_inside.
Qed.

(** C3 as stated fails for a request of -2 A: its magnitude is above 1.0,
    yet 1e-6 is commanded, neither the nearest bound nor negative. *)
Lemma magnitude_clamp_law_fails :
  exists st',
    _configCurrent (-2) (bench EmptyString) = Ok (tt, st') /\
    _latestCurrentVal st' == 1 # 1000000 /\
    ~ magnitude_clamp_law (-2) (_latestCurrentVal st').
Proof.
  destruct (_configCurrent_run (-2) (bench EmptyString)) as (st' & R & _ & Hc & _).
  exists st'. split; [exact R |].
  assert (E : _latestCurrentVal st' == 1 # 1000000).
  { rewrite Hc. apply clip_below; lra. }
  split; [exact E |].
  intros (_ & _ & Hneg & _).
  assert (H : -2 < 0) by lra. specialize (Hneg H). lra.
Qed.

(** ** Ramps *)

Lemma written_app (key : string) (l1 l2 : list event) :
  written key (l1 ++ l2) = (written key l1 ++ written key l2)%list.
Proof.
  induction l1 as [| e l1 IH]; [reflexivity |].
  destruct e; cbn [written app]; try exact IH.
  destruct (String.eqb key0 key); cbn [app]; now rewrite IH.
Qed.

Lemma written_none (key : string) (evs : list event) :
  Forall (not_write_to key) evs -> written key evs = [].
Proof.
  induction 1 as [| e evs He _ IH]; [reflexivity |].
  destruct e; cbn [written]; try exact IH.
  cbn in He. apply String.eqb_neq in He. now rewrite He.
Qed.



Lemma last_cons {A} (x d : A) (l : list A) : List.last (x :: l) d = List.last l x.
Proof.
  revert x d. induction l as [| y l IH]; intros x d; [reflexivity |].
  change (List.last (x :: y :: l) d) with (List.last (y :: l) d).
  now rewrite (IH y d), (IH y x).
Qed.

Lemma for_each__configCurrent_run (pts : list Q) (st : driver) :
  exists st',
    for_each pts (fun curr => _configCurrent curr) st = Ok (tt, st') /\
    log st' = (log st ++ flat_map (fun p => curr_events (clamp p)) pts)%list /\
    _latestCurrentVal st' = List.last (map clamp pts) (_latestCurrentVal st) /\
    same_setup st st'.
Proof.
  revert st. induction pts as [| p pts IH]; intros st.
  - exists st. cbn. rewrite app_nil_r. repeat split.
  - destruct (_configCurrent_run p st) as (s1 & R1 & L1 & C1 & S1).
    destruct (IH s1) as (s2 & R2 & L2 & C2 & S2).
    exists s2. split; [| split; [| split]].
    + cbn [for_each]. unfold bind. now rewrite R1.
    + rewrite L2, L1, <- app_assoc. reflexivity.
    + rewrite C2, C1. cbn [map]. now rewrite last_cons.
    + eapply same_setup_trans; eassumption.
Qed.

(** The two ways through [setCurrent]. *)
Lemma setCurrent_direct (b : Q) (st : driver) :
  output_on st = false \/ currStep st = None ->
  exists st',
    setCurrent b st = Ok (tt, st') /\
    log st' = (log st ++ HwRead "OUTP:STATE" :: curr_events (clamp b))%list /\
    _latestCurrentVal st' = clamp b /\
    same_setup st st'.
Proof.
  intros Hd.
  destruct (enable_get_run st) as (s1 & R1 & L1 & C1 & S1).
  destruct (_configCurrent_run b s1) as (s2 & R2 & L2 & C2 & S2).
  exists s2. split; [| split; [| split]].
  - unfold setCurrent, bind, gets. rewrite R1.
    destruct S1 as (_ & -> & _).
    destruct Hd as [-> | ->]; [exact R2 |].
    destruct (negb (output_on st)); exact R2.
  - rewrite L2, L1, <- app_assoc. reflexivity.
  - exact C2.
  - eapply same_setup_trans; eassumption.
Qed.

Lemma setCurrent_stepped (b s : Q) (n : Z) (pts : list Q) (st : driver) :
  output_on st = true -> currStep st = Some s ->
  nSteps_of (_latestCurrentVal st) b s = Ok n ->
  ramp_points (_latestCurrentVal st) b n = Ok pts ->
  exists st',
    setCurrent b st = Ok (tt, st') /\
    log st' = (log st ++ HwRead "OUTP:STATE" ::
                 flat_map (fun p => curr_events (clamp p)) pts)%list /\
    _latestCurrentVal st' = List.last (map clamp pts) (_latestCurrentVal st) /\
    same_setup st st'.
Proof.
  intros Hon Hs Hn Hp.
  destruct (enable_get_run st) as (s1 & R1 & L1 & C1 & S1).
  destruct (for_each__configCurrent_run pts s1) as (s2 & R2 & L2 & C2 & S2).
  exists s2. split; [| split; [| split]].
  - unfold setCurrent, bind, gets. rewrite R1.
    destruct S1 as (_ & -> & _). rewrite Hon, Hs. cbn [negb].
    unfold lift. rewrite Hn, Hp. exact R2.
  - rewrite L2, L1, <- app_assoc. reflexivity.
  - now rewrite C2, C1.
  - eapply same_setup_trans; eassumption.
Qed.

#[local] Instance clamp_comp : Proper (Qeq ==> Qeq) clamp.
Proof. intros x y H. unfold clamp. now rewrite H. Qed.

Lemma nSteps_of_pos (a b s : Q) :
  0 < s ->
  nSteps_of a b s = Ok (Qfloor (Qabs (a - b) / s)) /\
  (0 <= Qfloor (Qabs (a - b) / s))%Z.
Proof.
  intros Hs. split.
  - unfold nSteps_of, int_floor.
    destruct (Qeq_bool s 0) eqn:E; [| reflexivity].
    apply Qeq_bool_iff in E. lra.
  - change 0%Z with (Qfloor 0). apply Qfloor_resp_le.
    apply Qle_shift_div_l; [exact Hs |].
    pose proof (Qabs_nonneg (a - b)). lra.
Qed.

Lemma ramp_points_none (a b : Q) : ramp_points a b 0 = Ok [].
Proof. reflexivity. Qed.

Lemma ramp_points_some (a b : Q) (k : nat) :
  ramp_points a b (Z.of_nat (S k)) =
  Ok (map (fun i => a + inject_Z (Z.of_nat i) * ((b - a) / inject_Z (Z.of_nat (S k))))
          (seq 1 k) ++ [b])%list.
Proof.
  unfold ramp_points, linspace.
  replace (1 + Z.of_nat (S k) <? 0)%Z with false by (symmetry; apply Z.ltb_ge; lia).
  replace (1 + Z.of_nat (S k) =? 0)%Z with false by (symmetry; apply Z.eqb_neq; lia).
  replace (1 + Z.of_nat (S k) =? 1)%Z with false by (symmetry; apply Z.eqb_neq; lia).
  replace (1 + Z.of_nat (S k) - 1)%Z with (Z.of_nat (S k)) by lia.
  unfold zrange. rewrite Nat2Z.id. cbn [seq map app tl].
  now rewrite map_map.
Qed.

Lemma ramp_points_spec (a b : Q) (n : Z) :
  (0 <= n)%Z ->
  exists pts,
    ramp_points a b n = Ok pts /\
    length pts = Z.to_nat n /\
    (forall i, (i < Z.to_nat n)%nat ->
       nth i pts 0 == a + inject_Z (Z.of_nat (S i)) * ((b - a) / inject_Z n)) /\
    ((1 <= n)%Z -> exists l, pts = (l ++ [b])%list).
Proof.
  intros Hn. rewrite <- (Z2Nat.id n Hn). rewrite Nat2Z.id.
  destruct (Z.to_nat n) as [| k].
  - exists []. split; [apply ramp_points_none |]. repeat split; intros; lia.
  - eexists. split; [apply ramp_points_some |].
    set (d := (b - a) / inject_Z (Z.of_nat (S k))).
    set (g := fun i : nat => a + inject_Z (Z.of_nat i) * d).
    split; [| split].
    + rewrite length_app, length_map, length_seq. cbn. lia.
    + intros i Hi. destruct (Nat.eq_dec i k) as [-> | Hne].
      * rewrite app_nth2; rewrite length_map, length_seq; [| lia].
        rewrite Nat.sub_diag. cbn [nth]. unfold d.
        assert (Hk : ~ inject_Z (Z.of_nat (S k)) == 0).
        { change 0 with (inject_Z 0). rewrite inject_Z_injective. lia. }
        field. exact Hk.
      * rewrite app_nth1 by (rewrite length_map, length_seq; lia).
        rewrite (nth_indep _ 0 (g O)) by (rewrite length_map, length_seq; lia).
        rewrite (map_nth g), seq_nth by lia. reflexivity.
    + intros _. eexists. reflexivity.
Qed.





Lemma last_clamp_in_range (pts : list Q) (d : Q) :
  pts <> [] -> in_range (List.last (map clamp pts) d).
Proof.
  intros Hne. destruct (exists_last Hne) as (l & p & ->).
  rewrite map_app. cbn [map]. rewrite last_last. apply clamp_in_range.
Qed.

(** Whatever way [setCurrent] takes, its traffic is the read of the output
    state followed by one [_configCurrent] per point. *)
Lemma setCurrent_shape (b : Q) (st st' : driver) :
  setCurrent b st = Ok (tt, st') ->
  exists pts,
    log st' = (log st ++ HwRead "OUTP:STATE" ::
                 flat_map (fun p => curr_events (clamp p)) pts)%list /\
    _latestCurrentVal st' = List.last (map clamp pts) (_latestCurrentVal st).
Proof.
  intros H.
  destruct (output_on st) eqn:Hon; [destruct (currStep st) as [s |] eqn:Hs |].
  - destruct (enable_get_run st) as (s1 & R1 & L1 & C1 & S1).
    destruct (nSteps_of (_latestCurrentVal st) b s) as [n | e] eqn:Hn.
    + destruct (ramp_points (_latestCurrentVal st) b n) as [pts | e] eqn:Hp.
      * destruct (setCurrent_stepped b s n pts st Hon Hs Hn Hp) as (s2 & R & L & C & _).
        rewrite R in H. injection H as <-. now exists pts.
      * exfalso. unfold setCurrent, bind, gets in H. rewrite R1 in H.
        destruct S1 as (_ & E & _). rewrite E, Hon, Hs in H. cbn [negb] in H.
        unfold lift in H. rewrite Hn, Hp in H. discriminate H.
    + exfalso. unfold setCurrent, bind, gets in H. rewrite R1 in H.
      destruct S1 as (_ & E & _). rewrite E, Hon, Hs in H. cbn [negb] in H.
      unfold lift in H. rewrite Hn in H. discriminate H.
  - destruct (setCurrent_direct b st (or_intror Hs)) as (s2 & R & L & C & _).
    rewrite R in H. injection H as <-. exists [b]. cbn [flat_map map List.last].
    now rewrite app_nil_r.
  - destruct (setCurrent_direct b st (or_introl Hon)) as (s2 & R & L & C & _).
    rewrite R in H. injection H as <-. exists [b]. cbn [flat_map map List.last].
    now rewrite app_nil_r.
Qed.



(** Splits a conjunction into its parts and nothing else. *)
Ltac conjs := repeat match goal with |- _ /\ _ => split end.



(** ** The commanded current stays within bounds *)

(** C10: whatever is requested, [_configCurrent] returns, writes
    [SOURCE:CURR:RANGE] and then [SOURCE:CURR] (the zero guard is never the
    branch taken), and both the value written and the persisted last commanded
    current are the clamped request, which lies in [[1e-6, 1.0]]: positive,
    never zero. The traffic of [setCurrent] is one such pair of writes per
    point, and the current it persists is within the bounds as soon as it
    wrote anything. Every [SOURCE:CURR] write of [enable(False)] and of
    [setCurrentMode] obeys the bounds too, and [setCurrentMode], which asks
    for 0, leaves 1e-6 as the persisted current. *)
Theorem commanded_current_within_bounds (x : Q) (st : driver) :
  (exists st',
      _configCurrent x st = Ok (tt, st') /\
      emitted st st' = [Write "SOURCE:CURR:RANGE" (VNum (needRange_of (clamp x)));
                        Write "SOURCE:CURR" (VNum (clamp x))] /\
      _latestCurrentVal st' = clamp x) /\
  (1 # 1000000 <= clamp x <= 1 /\ 0 < clamp x /\ ~ clamp x == 0) /\
  (forall st', setCurrent x st = Ok (tt, st') ->
      Forall curr_write_ok (emitted st st') /\
      exists pts,
        emitted st st' =
          HwRead "OUTP:STATE" :: flat_map (fun p => curr_events (clamp p)) pts /\
        (pts <> [] -> in_range (_latestCurrentVal st'))) /\
  (forall r st', enable (Some false) st = Ok (r, st') ->
      Forall curr_write_ok (emitted st st')) /\
  (forall v st', setCurrentMode v st = Ok (tt, st') ->
      Forall curr_write_ok (emitted st st') /\
      _latestCurrentVal st' == 1 # 1000000).
Proof.
  pose proof (clamp_in_range x) as Hr. unfold in_range in Hr.
  split; [| split; [| split; [| split]]].
  - destruct (_configCurrent_run x st) as (st' & R & L & Hc & _).
    exists st'. split; [exact R |]. split; [| exact Hc].
    now apply emitted_app.
  - repeat split; lra.
  - intros st' H. split.
    + eapply emits_emitted; [| exact H].
      apply emits_setCurrent; cbn; auto using curr_events_ok.
    + destruct (setCurrent_shape x st st' H) as (pts & L & C).
      exists pts. split; [now apply emitted_app |].
      intros Hne. rewrite C. now apply last_clamp_in_range.
  - intros r st' H. eapply emits_emitted; [| exact H].
    apply emits_enable; cbn; auto using curr_events_ok.
    intros v E. discriminate E.
  - intros v st' H. split.
    + eapply emits_emitted; [apply emits_setCurrentMode | exact H].
    + unfold setCurrentMode in H.
      apply bind_Ok in H as (? & s1 & _ & H).
      apply bind_Ok in H as (? & s2 & _ & H).
      apply bind_Ok in H as (? & s3 & _ & H).
      destruct (_configCurrent_run 0 s3) as (s4 & R & _ & Hc & _).
      rewrite R in H. injection H as <-. rewrite Hc.
      apply clip_below; lra.
Qed.

(** ** What the setters leave alone *)

Lemma keeps_ret {A} (a : A) : keeps (ret a).
Proof. intros st a' st' H. injection H as _ <-. apply same_setup_refl. Qed.

Lemma keeps_gets {A} (f : driver -> A) : keeps (gets f).
Proof. intros st a' st' H. injection H as _ <-. apply same_setup_refl. Qed.

Lemma keeps_lift {A} (r : res A) : keeps (lift r).
Proof.
  intros st a' st' H. destruct r; [| discriminate].
  injection H as _ <-. apply same_setup_refl.
Qed.

Lemma keeps_bind {A B} (c : M A) (k : A -> M B) :
  keeps c -> (forall a, keeps (k a)) -> keeps (bind c k).
Proof.
  intros Hc Hk st b st' H.
  apply bind_Ok in H as (a & s1 & H1 & H2).
  eapply same_setup_trans; [eapply Hc | eapply Hk]; eassumption.
Qed.

Lemma keeps_for_each {A} (xs : list A) (body : A -> M unit) :
  (forall x, keeps (body x)) -> keeps (for_each xs body).
Proof.
  intros Hb. induction xs as [| x xs IH]; cbn [for_each].
  - apply keeps_ret.
  - apply keeps_bind; [apply Hb | intros _; exact IH].
Qed.

Lemma keeps__configCurrent (x : Q) : keeps (_configCurrent x).
Proof.
  intros st [] st' H.
  destruct (_configCurrent_run x st) as (s1 & R & _ & _ & S).
  rewrite R in H. now injection H as <-.
Qed.

Lemma keeps_enable_get : keeps enable_get.
Proof.
  intros st b st' H.
  destruct (enable_get_run st) as (s1 & R & _ & _ & S).
  rewrite R in H. now injection H as _ <-.
Qed.

Lemma keeps_setVoltage (voltVolts : Q) : keeps (setVoltage voltVolts).
Proof.
  unfold setVoltage.
  apply keeps_bind; [apply keeps_gets | intros voltTemp].
  apply keeps_bind; [apply keeps_enable_get | intros on].
  apply keeps_bind; [apply keeps_gets | intros step].
  destruct (negb on), step as [step |]; try apply keeps__configCurrent.
  apply keeps_bind; [apply keeps_lift | intros nSteps].
  apply keeps_bind; [apply keeps_lift | intros pts].
  apply keeps_for_each. intros volt. apply keeps__configCurrent.
Qed.

(** ** Voltage setpoint *)

(** C2, evaluated on the code: [setVoltage] goes through the current
    primitive. Whenever it returns it has written nothing to [SOURCE:VOLT]
    and the persisted last commanded voltage is what it was before the call;
    every [SOURCE:CURR] value it wrote is a clamped current. *)
Theorem setVoltage_never_updates_voltage (v : Q) (st st' : driver) :
  setVoltage v st = Ok (tt, st') ->
  written "SOURCE:VOLT" (emitted st st') = [] /\
  _latestVoltageVal st' = _latestVoltageVal st /\
  Forall curr_write_ok (emitted st st').
Proof.
  intros H. split; [| split].
  - apply written_none. eapply emits_emitted; [| exact H].
    apply emits_setVoltage; cbn; [exact I |].
    intros c _. apply curr_events_not_write_to; discriminate.
  - apply (keeps_setVoltage v _ _ _ H).
  - eapply emits_emitted; [| exact H].
    apply emits_setVoltage; cbn; auto using curr_events_ok.
Qed.

Lemma setVoltage_never_updates_voltage_witness :
  let st := bench EmptyString in
  let st' := run (setVoltage (1 # 2)) st in
  setVoltage (1 # 2) st = Ok (tt, st') /\
  emitted st st' = [HwRead "OUTP:STATE";
                    Write "SOURCE:CURR:RANGE" (VNum 1);
                    Write "SOURCE:CURR" (VNum (1 # 2))] /\
  _latestCurrentVal st' = 1 # 2 /\
  written "SOURCE:VOLT" (emitted st st') = [] /\
  _latestVoltageVal st' = 0.
Proof.
  cbv zeta.
  assert (R : setVoltage (1 # 2) (bench EmptyString)
              = Ok (tt, run (setVoltage (1 # 2)) (bench EmptyString)))
    by (vm_compute; reflexivity).
  destruct (setVoltage_never_updates_voltage _ _ _ R) as (Hw & Hv & _).
  conjs; [exact R | vm_compute; reflexivity | vm_compute; reflexivity | exact Hw |].
  rewrite Hv. reflexivity.
Defined.

(** ** Terminal selection *)

(** C8, as measured on the code: ['Front'] is written as [FRON] and ['Rear']
    as [REAR] to [ROUT:TERM]; for any other argument, and only then,
    [setPort] returns normally, having raised nothing and left the driver
    untouched. *)
Theorem setPort_ignores_other_ports (port : value) (st : driver) :
  emitted st (run (setPort (VStr "Front")) st) = [Write "ROUT:TERM" (VStr "FRON")] /\
  emitted st (run (setPort (VStr "Rear")) st) = [Write "ROUT:TERM" (VStr "REAR")] /\
  (port <> VStr "Front" /\ port <> VStr "Rear" <-> setPort port st = Ok (tt, st)) /\
  setPort (VStr "Side") st = Ok (tt, st) /\
  setPort (VNum 1) st = Ok (tt, st).
Proof.
  conjs; try reflexivity.
  - now apply emitted_app.
  - now apply emitted_app.
  - destruct port as [s | q]; [| split; [reflexivity | split; discriminate]].
    unfold setPort, py_eq. split.
    + intros [H1 H2].
      destruct (String.eqb_spec s "Front") as [-> | _]; [contradiction |].
      destruct (String.eqb_spec s "Rear") as [-> | _]; [contradiction |].
      reflexivity.
    + intros H.
      assert (Hlog : forall k w, log st <> (log st ++ [Write k w])%list).
      { intros k w E. apply (f_equal (@length event)) in E.
        rewrite length_app in E. cbn in E. lia. }
      destruct (String.eqb_spec s "Front") as [-> | N1].
      { exfalso. injection H as E. apply (f_equal log) in E.
        cbn in E. symmetry in E. now apply Hlog in E. }
      destruct (String.eqb_spec s "Rear") as [-> | N2].
      { exfalso. injection H as E. apply (f_equal log) in E.
        cbn in E. symmetry in E. now apply Hlog in E. }
      split; congruence.
Qed.

(** C8 as stated fails for the port ['Side']: the call raises nothing and
    returns with the driver as it was. *)
Lemma setPort_side_is_not_refused :
  setPort (VStr "Side") (bench EmptyString) = Ok (tt, bench EmptyString) /\
  ~ (exists e, setPort (VStr "Side") (bench EmptyString) = Raise e) /\
  emitted (bench EmptyString) (run (setPort (VStr "Side")) (bench EmptyString)) = [].
Proof.
  assert (R : setPort (VStr "Side") (bench EmptyString) = Ok (tt, bench EmptyString))
    by reflexivity.
  split; [exact R |]. split.
  - intros (e & H). rewrite R in H. discriminate H.
  - unfold run. rewrite R. unfold emitted. now rewrite skipn_all.
Qed.

(** ** Switching the output off *)

Lemma getConfigParam_cached_run (key : string) (st : driver) :
  exists st',
    getConfigParam key false st =
      Ok (match config st !! key with
          | Some v => v
          | None => reply_param (device st) (log st) key
          end, st') /\
    log st' = (log st ++ match config st !! key with
                         | Some _ => []
                         | None => [HwRead key]
                         end)%list /\
    _latestCurrentVal st' = _latestCurrentVal st /\
    same_setup st st'.
Proof.
  unfold getConfigParam, bind, gets, id.
  destruct (config st !! key) as [v |].
  - exists st. rewrite app_nil_r. repeat split.
  - cbn. eexists. split; [reflexivity |]. cbn. repeat split.
Qed.

Lemma setCurrent_total (b : Q) (st : driver) :
  currStep st = None \/ (exists s, currStep st = Some s /\ 0 < s) ->
  exists st' pts,
    setCurrent b st = Ok (tt, st') /\
    log st' = (log st ++ HwRead "OUTP:STATE" ::
                 flat_map (fun p => curr_events (clamp p)) pts)%list /\
    same_setup st st'.
Proof.
  intros Hstep.
  destruct (output_on st) eqn:Hon, Hstep as [Hnone | (s & Hs & Hpos)].
  - destruct (setCurrent_direct b st (or_intror Hnone)) as (st' & R & L & _ & S).
    exists st', [b]. cbn [flat_map]. rewrite app_nil_r. auto.
  - destruct (nSteps_of_pos (_latestCurrentVal st) b s Hpos) as [Hn Hn0].
    destruct (ramp_points_spec (_latestCurrentVal st) b _ Hn0) as (pts & Hp & _).
    destruct (setCurrent_stepped b s _ pts st Hon Hs Hn Hp) as (st' & R & L & _ & S).
    exists st', pts. auto.
  - destruct (setCurrent_direct b st (or_introl Hon)) as (st' & R & L & _ & S).
    exists st', [b]. cbn [flat_map]. rewrite app_nil_r. auto.
  - destruct (setCurrent_direct b st (or_introl Hon)) as (st' & R & L & _ & S).
    exists st', [b]. cbn [flat_map]. rewrite app_nil_r. auto.
Qed.

Lemma ramp_has_no_state_write (pts : list Q) :
  Forall (not_write_to "OUTP:STATE")
         (HwRead "OUTP:STATE" :: flat_map (fun p => curr_events (clamp p)) pts).
Proof.
  constructor; [exact I |].
  apply Forall_flat_map, Forall_forall. intros p _.
  apply curr_events_not_write_to; discriminate.
Qed.

(** In a log that ends with a write to [k0] and one more event that is no
    write, and has no earlier write to [k0], every write to another
    parameter comes before the write to [k0]. *)
Lemma final_write_is_last (pre : list event) (k0 : string) (w0 : value) :
  Forall (not_write_to k0) pre ->
  forall i j k v w,
    nth_error (pre ++ [Write k0 w0; HwRead k0])%list i = Some (Write k0 w) ->
    nth_error (pre ++ [Write k0 w0; HwRead k0])%list j = Some (Write k v) ->
    k <> k0 -> (j < i)%nat.
Proof.
  intros Hpre i j k v w Hi Hj Hk.
  destruct (Nat.lt_ge_cases i (length pre)) as [Hlt | Hge].
  { rewrite nth_error_app1 in Hi by exact Hlt.
    apply nth_error_In in Hi. rewrite List.Forall_forall in Hpre.
    specialize (Hpre _ Hi). cbn in Hpre. congruence. }
  destruct (Nat.lt_ge_cases j (length pre)) as [Hjl | Hjg]; [lia |].
  rewrite nth_error_app2 in Hj by exact Hjg.
  destruct (j - length pre)%nat as [| [| m]]; cbn in Hj.
  - injection Hj as -> _. congruence.
  - discriminate.
  - destruct m; discriminate.
Qed.

(** C5: in current-source mode, and with the step size unset or positive,
    [enable(False)] returns; what it sends is first the traffic of
    [setCurrent(0)], which holds no write to [OUTP:STATE], then the write of
    0 to [OUTP:STATE], then the read-back. All [SOURCE:CURR] writes of the call
    are those of the ramp, and every write to another parameter sits at an
    earlier position of the log than the write to [OUTP:STATE]. *)
Theorem disable_zeroes_current_first (st : driver) :
  py_eq (source_func st) (VStr "CURR") = true ->
  currStep st = None \/ (exists s, currStep st = Some s /\ 0 < s) ->
  exists r st0 st1 st',
    getConfigParam "SOURCE:FUNC" false st = Ok (source_func st, st0) /\
    setCurrent 0 st0 = Ok (tt, st1) /\
    enable (Some false) st = Ok (r, st') /\
    emitted st st' =
      ((emitted st st0 ++ emitted st0 st1) ++
       [Write "OUTP:STATE" (VNum 0); HwRead "OUTP:STATE"])%list /\
    Forall (not_write_to "OUTP:STATE") (emitted st st0 ++ emitted st0 st1) /\
    written "SOURCE:CURR" (emitted st st') = written "SOURCE:CURR" (emitted st0 st1) /\
    (forall i j k v w,
        nth_error (emitted st st') i = Some (Write "OUTP:STATE" w) ->
        nth_error (emitted st st') j = Some (Write k v) ->
        k <> "OUTP:STATE" -> (j < i)%nat).
Proof.
  intros Hmode Hstep.
  destruct (getConfigParam_cached_run "SOURCE:FUNC" st) as (st0 & R0 & L0 & _ & S0).
  fold (source_func st) in R0.
  assert (Hstep0 : currStep st0 = None \/ (exists s, currStep st0 = Some s /\ 0 < s))
    by (destruct S0 as (_ & -> & _); exact Hstep).
  destruct (setCurrent_total 0 st0 Hstep0) as (st1 & pts & R1 & L1 & _).
  set (pre0 := match config st !! "SOURCE:FUNC" with
               | Some _ => []
               | None => [HwRead "SOURCE:FUNC"]
               end) in L0.
  set (pre1 := HwRead "OUTP:STATE" :: flat_map (fun p => curr_events (clamp p)) pts) in L1.
  assert (Hrun : exists r st',
             enable (Some false) st = Ok (r, st') /\
             log st' = (log st1 ++ [Write "OUTP:STATE" (VNum 0); HwRead "OUTP:STATE"])%list).
  { unfold enable, enable_with. unfold bind at 1. unfold bind at 1.
    rewrite R0, Hmode, R1. cbn. eexists _, _. split; [reflexivity |].
    cbn. now rewrite <- app_assoc. }
  destruct Hrun as (r & st' & R & L).
  assert (E0 : emitted st st0 = pre0) by now apply emitted_app.
  assert (E1 : emitted st0 st1 = pre1) by now apply emitted_app.
  assert (E : emitted st st' =
              ((pre0 ++ pre1) ++ [Write "OUTP:STATE" (VNum 0); HwRead "OUTP:STATE"])%list).
  { apply emitted_app. rewrite L, L1, L0, <- !app_assoc. reflexivity. }
  assert (Hpre : Forall (not_write_to "OUTP:STATE") (pre0 ++ pre1)).
  { apply Forall_app. split; [| apply ramp_has_no_state_write].
    unfold pre0. destruct (config st !! "SOURCE:FUNC"); repeat constructor. }
  exists r, st0, st1, st'. rewrite E, E0, E1.
  conjs; try assumption; try reflexivity.
  - rewrite !written_app. cbn [written String.eqb Ascii.eqb].
    assert (H0 : written "SOURCE:CURR" pre0 = []).
    { unfold pre0. destruct (config st !! "SOURCE:FUNC"); reflexivity. }
    rewrite H0. cbn. now rewrite app_nil_r.
  - apply final_write_is_last, Hpre.
Qed.

Lemma disable_zeroes_current_first_witness :
  let st := bench_sourcing EmptyString (5 # 1000) in
  py_eq (source_func st) (VStr "CURR") = true /\
  currStep st = Some (1 # 1000) /\
  exists r st',
    enable (Some false) st = Ok (r, st') /\
    (forall i j k v w,
        nth_error (emitted st st') i = Some (Write "OUTP:STATE" w) ->
        nth_error (emitted st st') j = Some (Write k v) ->
        k <> "OUTP:STATE" -> (j < i)%nat).
Proof.
  cbv zeta.
  assert (H1 : py_eq (source_func (bench_sourcing EmptyString (5 # 1000))) (VStr "CURR") = true)
    by (vm_compute; reflexivity).
  assert (H2 : currStep (bench_sourcing EmptyString (5 # 1000)) = Some (1 # 1000))
    by (vm_compute; reflexivity).
  split; [exact H1 |]. split; [exact H2 |].
  destruct (disable_zeroes_current_first (bench_sourcing EmptyString (5 # 1000)) H1
              (or_intror (ex_intro _ (1 # 1000) (conj H2 eq_refl))))
    as (r & st0 & st1 & st' & _ & _ & R & _ & _ & _ & Hord).
  exists r, st'. split; [exact R | exact Hord].
Defined.

(** ** Measurements *)

Lemma split_no_sep (sep : ascii) (f : string) :
  has_char sep f = false -> split sep f = [f].
Proof.
  induction f as [| c f IH]; [reflexivity |]. cbn [has_char split].
  intros H. apply orb_false_iff in H as [Hc Hf].
  rewrite Hc, (IH Hf). reflexivity.
Qed.

Lemma split_field (sep : ascii) (f rest : string) :
  has_char sep f = false ->
  split sep (f ++ String sep rest) = f :: split sep rest.
Proof.
  induction f as [| c f IH]; cbn [has_char].
  - intros _. change (EmptyString ++ String sep rest) with (String sep rest).
    cbn [split]. now rewrite Ascii.eqb_refl.
  - intros H. apply orb_false_iff in H as [Hc Hf].
    change (String c f ++ String sep rest) with (String c (f ++ String sep rest)).
    cbn [split]. rewrite Hc, (IH Hf). reflexivity.
Qed.

(** Splitting a joined reply gives back the fields. *)
Lemma split_join (sep : ascii) (fields : list string) :
  fields <> [] ->
  Forall (fun f => has_char sep f = false) fields ->
  split sep (join sep fields) = fields.
Proof.
  intros Hne Hall. induction Hall as [| f fs Hf Hfs IH]; [contradiction |].
  destruct fs as [| g fs].
  - cbn [join]. now apply split_no_sep.
  - change (join sep (f :: g :: fs)) with (f ++ String sep (join sep (g :: fs))).
    rewrite (split_field _ _ _ Hf), IH by discriminate. reflexivity.
Qed.

Lemma measVoltage_run (st : driver) (field : string) (v lim : Q) :
  index (split "," (reply_query (device st) (log st) "MEASURE:VOLT?")) 0 = Ok field ->
  float field = Ok v ->
  config st !! "VOLT:PROT" = Some (VNum lim) ->
  exists st',
    measVoltage st = Ok (v, st') /\
    log st' = (log st ++ Query "MEASURE:VOLT?" ::
               if Qle_bool lim v
               then warning "Warning: Keithley compliance voltage of" (VNum lim)
                            (v * _latestCurrentVal st * (1 # 1000))
               else [])%list.
Proof.
  intros Hf Hv Hl.
  unfold measVoltage, query, protectionVoltage, getConfigParam, print.
  unfold bind, gets, lift, emit, id, ret. cbn.
  rewrite Hf, Hv. cbn. rewrite Hl. cbn.
  destruct (Qle_bool lim v); cbn; rewrite ?Hl; cbn;
    eexists; (split; [reflexivity |]); cbn; rewrite <- ?app_assoc; reflexivity.
Qed.

Lemma measCurrent_run (st : driver) (field : string) (i lim : Q) :
  index (split "," (reply_query (device st) (log st) "MEASURE:CURR?")) 1 = Ok field ->
  float field = Ok i ->
  config st !! "CURR:PROT" = Some (VNum lim) ->
  exists st',
    measCurrent st = Ok (i, st') /\
    log st' = (log st ++ Query "MEASURE:CURR?" ::
               if Qle_bool lim i
               then warning "Warning: Keithley compliance current of" (VNum lim)
                            (i * _latestVoltageVal st * (1 # 1000))
               else [])%list.
Proof.
  intros Hf Hv Hl.
  unfold measCurrent, query, protectionCurrent, getConfigParam, print.
  unfold bind, gets, lift, emit, id, ret. cbn.
  rewrite Hf, Hv. cbn. rewrite Hl. cbn.
  destruct (Qle_bool lim i); cbn; rewrite ?Hl; cbn;
    eexists; (split; [reflexivity |]); cbn; rewrite <- ?app_assoc; reflexivity.
Qed.

(** C6: when the instrument's reply is a comma-separated list of fields,
    [measVoltage] returns the first field read as a float and [measCurrent]
    the second one (the protection limits being numbers, as [__init__]
    leaves them). *)
Theorem measurements_read_their_field
    (st : driver) (fields : list string) (f0 f1 : string) (v i lv li : Q) :
  Forall (fun f => has_char "," f = false) fields ->
  reply_query (device st) (log st) "MEASURE:VOLT?" = join "," fields ->
  reply_query (device st) (log st) "MEASURE:CURR?" = join "," fields ->
  nth_error fields 0 = Some f0 -> float f0 = Ok v ->
  nth_error fields 1 = Some f1 -> float f1 = Ok i ->
  config st !! "VOLT:PROT" = Some (VNum lv) ->
  config st !! "CURR:PROT" = Some (VNum li) ->
  result (measVoltage st) = Ok v /\ result (measCurrent st) = Ok i.
Proof.
  intros Hall Hrv Hri H0 Hv H1 Hi Hlv Hli.
  assert (Hne : fields <> []) by (intros ->; discriminate H0).
  split.
  - destruct (measVoltage_run st f0 v lv) as (st' & R & _); [| exact Hv | exact Hlv |].
    + rewrite Hrv, (split_join _ _ Hne Hall). unfold index. now rewrite H0.
    + now rewrite R.
  - destruct (measCurrent_run st f1 i li) as (st' & R & _); [| exact Hi | exact Hli |].
    + rewrite Hri, (split_join _ _ Hne Hall). unfold index. now rewrite H1.
    + now rewrite R.
Qed.

(** The reply ["1.5,0.02"] reads as 1.5 V and 0.02 A. *)
Lemma measurements_read_their_field_witness :
  let st := bench "1.5,0.02" in
  join "," ["1.5"; "0.02"] = "1.5,0.02" /\
  float "1.5" = Ok (3 # 2) /\ float "0.02" = Ok (1 # 50) /\
  result (measVoltage st) = Ok (3 # 2) /\ result (measCurrent st) = Ok (1 # 50).
Proof.
  cbv zeta.
  assert (Hj : join "," ["1.5"; "0.02"] = "1.5,0.02") by reflexivity.
  assert (Hv : float "1.5" = Ok (3 # 2)) by (vm_compute; reflexivity).
  assert (Hi : float "0.02" = Ok (1 # 50)) by (vm_compute; reflexivity).
  split; [exact Hj |]. split; [exact Hv |]. split; [exact Hi |].
  apply (measurements_read_their_field (bench "1.5,0.02") ["1.5"; "0.02"]
           "1.5" "0.02" (3 # 2) (1 # 50) 4 (200 # 1000)).
  - repeat constructor.
  - reflexivity.
  - reflexivity.
  - reflexivity.
  - exact Hv.
  - reflexivity.
  - exact Hi.
  - vm_compute; reflexivity.
  - vm_compute; reflexivity.
Defined.

(** C7, evaluated on the code: a measurement returns the value measured
    whether or not the limit is reached; the two warning lines are printed
    exactly when the value is at least the limit, and the power figure they
    carry is the value times the persisted complementary setpoint times
    1e-3, under the label mW. *)
Theorem compliance_warning_figure (st : driver) (f0 f1 : string) (v i lv li : Q) :
  index (split "," (reply_query (device st) (log st) "MEASURE:VOLT?")) 0 = Ok f0 ->
  float f0 = Ok v ->
  index (split "," (reply_query (device st) (log st) "MEASURE:CURR?")) 1 = Ok f1 ->
  float f1 = Ok i ->
  config st !! "VOLT:PROT" = Some (VNum lv) ->
  config st !! "CURR:PROT" = Some (VNum li) ->
  (exists st',
      measVoltage st = Ok (v, st') /\
      (lv <= v ->
         emitted st st' =
           Query "MEASURE:VOLT?" ::
           warning "Warning: Keithley compliance voltage of" (VNum lv)
                   (v * _latestCurrentVal st * (1 # 1000))) /\
      (~ lv <= v -> emitted st st' = [Query "MEASURE:VOLT?"])) /\
  (exists st',
      measCurrent st = Ok (i, st') /\
      (li <= i ->
         emitted st st' =
           Query "MEASURE:CURR?" ::
           warning "Warning: Keithley compliance current of" (VNum li)
                   (i * _latestVoltageVal st * (1 # 1000))) /\
      (~ li <= i -> emitted st st' = [Query "MEASURE:CURR?"])).
Proof.
  intros H0 Hv H1 Hi Hlv Hli. split.
  - destruct (measVoltage_run st f0 v lv H0 Hv Hlv) as (st' & R & L).
    exists st'. split; [exact R |].
    apply emitted_app in L. rewrite L.
    destruct (Qle_bool lv v) eqn:E; split; intros H; try reflexivity.
    + apply Qle_bool_iff in E. contradiction.
    + apply Qle_bool_iff in H. congruence.
  - destruct (measCurrent_run st f1 i li H1 Hi Hli) as (st' & R & L).
    exists st'. split; [exact R |].
    apply emitted_app in L. rewrite L.
    destruct (Qle_bool li i) eqn:E; split; intros H; try reflexivity.
    + apply Qle_bool_iff in E. contradiction.
    + apply Qle_bool_iff in H. congruence.
Qed.

(** Sourcing 0.5 A and reading 5 V against a limit of 4 V: the warning
    carries the figure 0.0025 where the product of the reading and the
    setpoint is 2.5. *)
Lemma compliance_warning_figure_witness :
  let st := bench_sourcing "5,0.5" (1 # 2) in
  _latestCurrentVal st == 1 # 2 /\
  exists st' figure,
    measVoltage st = Ok (5, st') /\
    emitted st st' =
      Query "MEASURE:VOLT?" ::
      warning "Warning: Keithley compliance voltage of" (VNum 4) figure /\
    figure == 1 # 400 /\
    ~ figure == 5 * (1 # 2).
Proof.
  cbv zeta.
  assert (Hc : _latestCurrentVal (bench_sourcing "5,0.5" (1 # 2)) == 1 # 2)
    by (vm_compute; reflexivity).
  split; [exact Hc |].
  destruct (compliance_warning_figure (bench_sourcing "5,0.5" (1 # 2))
              "5" "0.5" 5 (1 # 2) 4 (200 # 1000)) as [(st' & R & Hw & _) _];
    try (vm_compute; reflexivity).
  exists st', (5 * _latestCurrentVal (bench_sourcing "5,0.5" (1 # 2)) * (1 # 1000)).
  split; [exact R |]. split; [apply Hw; discriminate |].
  rewrite Hc. split; [reflexivity | discriminate].
Defined.

(** * Further properties of the driver *)

(** ** Setpoint changes without a ramp *)

(** X1: with the output off, or with no step size, [setCurrent] jumps: one
    read of the output state, one range write and one [SOURCE:CURR] write of
    the clamped target, however far the target is from the last commanded
    value; the clamped target is persisted. *)
Theorem setCurrent_jumps_without_ramp (b : Q) (st : driver) :
  output_on st = false \/ currStep st = None ->
  exists st',
    setCurrent b st = Ok (tt, st') /\
    emitted st st' = HwRead "OUTP:STATE" :: curr_events (clamp b) /\
    currents_written st st' = [clamp b] /\
    _latestCurrentVal st' = clamp b /\
    (in_range b -> _latestCurrentVal st' == b).
Proof.
  intros Hd.
  destruct (setCurrent_direct b st Hd) as (st' & R & L & C & _).
  exists st'. split; [exact R |].
  assert (E : emitted st st' = HwRead "OUTP:STATE" :: curr_events (clamp b))
    by now apply emitted_app.
  split; [exact E |]. split; [| split; [exact C |]].
  - unfold currents_written. rewrite E. reflexivity.
  - intros Hb. rewrite C. now apply clip_inside.
Qed.

Lemma setCurrent_jumps_without_ramp_witness :
  output_on (bench EmptyString) = false /\
  exists st',
    setCurrent (1 # 2) (bench EmptyString) = Ok (tt, st') /\
    currents_written (bench EmptyString) st' = [clamp (1 # 2)] /\
    _latestCurrentVal st' == 1 # 2.
Proof.
  assert (H : output_on (bench EmptyString) = false) by reflexivity.
  split; [exact H |].
  destruct (setCurrent_jumps_without_ramp (1 # 2) (bench EmptyString) (or_introl H))
    as (st' & R & _ & W & _ & C).
  exists st'. split; [exact R |]. split; [exact W |].
  apply C. split; discriminate.
Defined.

Lemma Qfloor_unit_interval (x : Q) : 0 <= x -> x < 1 -> Qfloor x = 0%Z.
Proof.
  intros H0 H1.
  pose proof (Qfloor_le x) as Hl. pose proof (Qlt_floor x) as Hu.
  rewrite inject_Z_plus in Hu. change (inject_Z 1) with 1 in Hu.
  assert (Ha : (Qfloor x < 1)%Z).
  { rewrite Zlt_Qlt. change (inject_Z 1) with 1. lra. }
  assert (Hb : (-1 < Qfloor x)%Z).
  { rewrite Zlt_Qlt. change (inject_Z (-1)) with (-1). lra. }
  lia.
Qed.

(** X3: with the output on and a step [s > 0], a target closer than one
    step to the last commanded current is never commanded: [setCurrent]
    returns after reading the output state, writes nothing, and the persisted
    current stays what it was. *)
Theorem setCurrent_below_one_step_writes_nothing (st : driver) (s b : Q) :
  currStep st = Some s -> 0 < s -> output_on st = true ->
  Qabs (_latestCurrentVal st - b) < s ->
  exists st',
    setCurrent b st = Ok (tt, st') /\
    emitted st st' = [HwRead "OUTP:STATE"] /\
    _latestCurrentVal st' = _latestCurrentVal st.
Proof.
  intros Hstep Hs Hon Hnear.
  destruct (nSteps_of_pos (_latestCurrentVal st) b s Hs) as [Hn _].
  assert (Hz : Qfloor (Qabs (_latestCurrentVal st - b) / s) = 0%Z).
  { apply Qfloor_unit_interval.
    - apply Qle_shift_div_l; [exact Hs |].
      pose proof (Qabs_nonneg (_latestCurrentVal st - b)). lra.
    - apply Qlt_shift_div_r; [exact Hs | lra]. }
  rewrite Hz in Hn.
  destruct (setCurrent_stepped b s 0 [] st Hon Hstep Hn (ramp_points_none _ _))
    as (st' & R & L & C & _).
  exists st'. split; [exact R |]. split; [now apply emitted_app | exact C].
Qed.

Lemma setCurrent_below_one_step_writes_nothing_witness :
  let st := bench_at (5 # 1000) in
  currStep st = Some (1 # 1000) /\ output_on st = true /\
  exists st',
    setCurrent (11 # 2000) st = Ok (tt, st') /\
    emitted st st' = [HwRead "OUTP:STATE"] /\
    _latestCurrentVal st' = _latestCurrentVal st.
Proof.
  cbv zeta.
  assert (H1 : currStep (bench_at (5 # 1000)) = Some (1 # 1000)) by (vm_compute; reflexivity).
  assert (H3 : output_on (bench_at (5 # 1000)) = true) by (vm_compute; reflexivity).
  assert (H4 : Qabs (_latestCurrentVal (bench_at (5 # 1000)) - (11 # 2000)) < 1 # 1000)
    by (vm_compute; reflexivity).
  split; [exact H1 |]. split; [exact H3 |].
  exact (setCurrent_below_one_step_writes_nothing _ _ _ H1 eq_refl H3 H4).
Defined.

Lemma enable_true_run (st : driver) :
  exists r st',
    enable (Some true) st = Ok (r, st') /\
    log st' = (log st ++ [Write "OUTP:STATE" (VNum 1); HwRead "OUTP:STATE"])%list /\
    setpoints st' = setpoints st /\
    device st' = device st.
Proof.
  unfold enable, enable_with. cbn.
  eexists _, _. split; [reflexivity |]. cbn.
  rewrite <- app_assoc. repeat split.
Qed.

(** X2: the no-ramp driver never ramps. Its constructor leaves both step
    sizes unset whatever was passed for them, and once the output is switched
    on a [setCurrent] still writes the clamped target alone. *)
Theorem noRamp_driver_always_jumps
    (protV protC : value) (cStep vStep : option Q) (dev : instrument) (b : Q) :
  exists st0 r st1 st2,
    noRamp__init__ protV protC cStep vStep (fresh dev) = Ok (tt, st0) /\
    currStep st0 = None /\ voltStep st0 = None /\
    enable (Some true) st0 = Ok (r, st1) /\
    setCurrent b st1 = Ok (tt, st2) /\
    currents_written st1 st2 = [clamp b] /\
    _latestCurrentVal st2 = clamp b.
Proof.
  assert (R0 : exists st0,
             noRamp__init__ protV protC cStep vStep (fresh dev) = Ok (tt, st0) /\
             currStep st0 = None /\ voltStep st0 = None).
  { eexists. split; [reflexivity |]. split; reflexivity. }
  destruct R0 as (st0 & R0 & Hc & Hv).
  destruct (enable_true_run st0) as (r & st1 & R1 & _ & Hs & _).
  assert (Hc1 : currStep st1 = None).
  { unfold setpoints in Hs. injection Hs as _ _ E _. congruence. }
  destruct (setCurrent_direct b st1 (or_intror Hc1)) as (st2 & R2 & L2 & C2 & _).
  exists st0, r, st1, st2. conjs; try assumption.
  unfold currents_written. rewrite (emitted_app _ _ _ L2). reflexivity.
Qed.

(** ** Setpoint changes with a step that is not positive *)







(** ** The size of a ramp's increments *)






(** ** Ranges *)






(** ** Source modes *)

Lemma setVoltage_total (v : Q) (st : driver) :
  voltStep st = None \/ (exists s, voltStep st = Some s /\ 0 < s) ->
  exists st' pts,
    setVoltage v st = Ok (tt, st') /\
    log st' = (log st ++ HwRead "OUTP:STATE" ::
                 flat_map (fun p => curr_events (clamp p)) pts)%list /\
    same_setup st st'.
Proof.
  intros Hstep.
  destruct (enable_get_run st) as (s1 & R1 & L1 & _ & S1).
  assert (Hjump : output_on st = false \/ voltStep st = None ->
            exists st' pts,
              setVoltage v st = Ok (tt, st') /\
              log st' = (log st ++ HwRead "OUTP:STATE" ::
                           flat_map (fun p => curr_events (clamp p)) pts)%list /\
              same_setup st st').
  { intros Hd.
    destruct (_configCurrent_run v s1) as (s2 & R2 & L2 & _ & S2).
    exists s2, [v]. split; [| split].
    - unfold setVoltage, bind, gets. rewrite R1.
      destruct S1 as (_ & _ & -> & _).
      destruct Hd as [-> | ->]; [exact R2 |].
      destruct (negb (output_on st)); exact R2.
    - rewrite L2, L1, <- app_assoc. cbn [flat_map]. now rewrite app_nil_r.
    - eapply same_setup_trans; eassumption. }
  destruct (output_on st) eqn:Hon; [| apply Hjump; now left].
  destruct Hstep as [Hnone | (s & Hs & Hpos)]; [apply Hjump; now right |].
  destruct (nSteps_of_pos (_latestVoltageVal st) v s Hpos) as [Hn Hn0].
  destruct (ramp_points_spec (_latestVoltageVal st) v _ Hn0) as (pts & Hp & _).
  destruct (for_each__configCurrent_run pts s1) as (s2 & R2 & L2 & _ & S2).
  exists s2, pts. split; [| split].
  - unfold setVoltage, bind, gets. rewrite R1.
    destruct S1 as (_ & _ & -> & _). rewrite Hs. cbn [negb].
    unfold lift. rewrite Hn, Hp. exact R2.
  - rewrite L2, L1, <- app_assoc. reflexivity.
  - eapply same_setup_trans; eassumption.
Qed.

Lemma ramp_traffic (pts : list Q) :
  Forall ramp_event (HwRead "OUTP:STATE" :: flat_map (fun p => curr_events (clamp p)) pts).
Proof.
  constructor; [exact I |].
  apply Forall_flat_map, List.Forall_forall. intros p _.
  unfold curr_events.
  constructor; [right; reflexivity |].
  constructor; [left; reflexivity | constructor].
Qed.

Lemma ramp_event_not_write_to (key : string) (evs : list event) :
  key <> "SOURCE:CURR" -> key <> "SOURCE:CURR:RANGE" ->
  Forall ramp_event evs -> Forall (not_write_to key) evs.
Proof.
  intros H1 H2. apply List.Forall_impl. intros [] He; cbn in *; try exact I.
  destruct He; congruence.
Qed.

(** [enable(False)] with usable step sizes: it returns, and its traffic is
    that of a ramp on the current path, then the write of 0 to [OUTP:STATE]
    and the read-back. *)
Lemma enable_false_run (st : driver) :
  steps_usable st ->
  exists r st' pre,
    enable (Some false) st = Ok (r, st') /\
    log st' = (log st ++ pre ++
               [Write "OUTP:STATE" (VNum 0); HwRead "OUTP:STATE"])%list /\
    Forall ramp_event pre /\
    same_setup st st'.
Proof.
  intros [Hc Hv].
  destruct (getConfigParam_cached_run "SOURCE:FUNC" st) as (st0 & R0 & L0 & _ & S0).
  fold (source_func st) in R0.
  set (pre0 := match config st !! "SOURCE:FUNC" with
               | Some _ => []
               | None => [HwRead "SOURCE:FUNC"]
               end) in L0.
  assert (Hpre0 : Forall ramp_event pre0).
  { unfold pre0. destruct (config st !! "SOURCE:FUNC"); repeat constructor. }
  assert (Hset : exists st1 pts,
             (if py_eq (source_func st) (VStr "CURR")
              then setCurrent 0 else setVoltage 0) st0 = Ok (tt, st1) /\
             log st1 = (log st0 ++ HwRead "OUTP:STATE" ::
                          flat_map (fun p => curr_events (clamp p)) pts)%list /\
             same_setup st0 st1).
  { destruct (py_eq (source_func st) (VStr "CURR")).
    - apply setCurrent_total. destruct S0 as (_ & -> & _). exact Hc.
    - apply setVoltage_total. destruct S0 as (_ & _ & -> & _). exact Hv. }
  destruct Hset as (st1 & pts & R1 & L1 & S1).
  assert (Hrun : exists r st',
             enable (Some false) st = Ok (r, st') /\
             log st' = (log st1 ++ [Write "OUTP:STATE" (VNum 0); HwRead "OUTP:STATE"])%list /\
             same_setup st1 st').
  { unfold enable, enable_with. unfold bind at 1. unfold bind at 1.
    rewrite R0. destruct (py_eq (source_func st) (VStr "CURR")); rewrite R1; cbn;
      (eexists _, _; split; [reflexivity |]); cbn; rewrite <- app_assoc;
      repeat split; apply S1. }
  destruct Hrun as (r & st' & R & L & S).
  exists r, st', (pre0 ++ HwRead "OUTP:STATE" ::
                  flat_map (fun p => curr_events (clamp p)) pts)%list.
  split; [exact R |]. split; [| split].
  - rewrite L, L1, L0, <- !app_assoc. reflexivity.
  - apply Forall_app. split; [exact Hpre0 | apply ramp_traffic].
  - eapply same_setup_trans; [exact S0 |].
    eapply same_setup_trans; [exact S1 | exact S].
Qed.

(** X10: switching the output off never zeroes the voltage. With usable
    step sizes and in either source mode, [enable(False)] returns, writes
    nothing to [SOURCE:VOLT] or its range, leaves the persisted voltage as it
    was, and writes [OUTP:STATE] once, with 0, after every other write. *)
Theorem disable_never_writes_voltage (st : driver) :
  steps_usable st ->
  exists r st',
    enable (Some false) st = Ok (r, st') /\
    written "SOURCE:VOLT" (emitted st st') = [] /\
    written "SOURCE:VOLT:RANGE" (emitted st st') = [] /\
    written "OUTP:STATE" (emitted st st') = [VNum 0] /\
    _latestVoltageVal st' = _latestVoltageVal st /\
    (forall i j k v w,
        nth_error (emitted st st') i = Some (Write "OUTP:STATE" w) ->
        nth_error (emitted st st') j = Some (Write k v) ->
        k <> "OUTP:STATE" -> (j < i)%nat).
Proof.
  intros Hsteps.
  destruct (enable_false_run st Hsteps) as (r & st' & pre & R & L & Hpre & S).
  exists r, st'. split; [exact R |].
  assert (E : emitted st st' =
              (pre ++ [Write "OUTP:STATE" (VNum 0); HwRead "OUTP:STATE"])%list)
    by now apply emitted_app.
  rewrite E, !written_app.
  rewrite (written_none "SOURCE:VOLT" pre)
    by (apply ramp_event_not_write_to; [discriminate | discriminate | exact Hpre]).
  rewrite (written_none "SOURCE:VOLT:RANGE" pre)
    by (apply ramp_event_not_write_to; [discriminate | discriminate | exact Hpre]).
  rewrite (written_none "OUTP:STATE" pre)
    by (apply ramp_event_not_write_to; [discriminate | discriminate | exact Hpre]).
  conjs; try reflexivity.
  - apply S.
  - apply final_write_is_last.
    apply ramp_event_not_write_to; [discriminate | discriminate | exact Hpre].
Qed.

Lemma disable_never_writes_voltage_witness :
  steps_usable bench_volt /\
  py_eq (source_func bench_volt) (VStr "VOLT") = true /\
  exists r st',
    enable (Some false) bench_volt = Ok (r, st') /\
    written "SOURCE:VOLT" (emitted bench_volt st') = [] /\
    written "OUTP:STATE" (emitted bench_volt st') = [VNum 0].
Proof.
  assert (H : steps_usable bench_volt).
  { split; right; eexists; (split; [vm_compute; reflexivity | reflexivity]). }
  split; [exact H |]. split; [vm_compute; reflexivity |].
  destruct (disable_never_writes_voltage bench_volt H) as (r & st' & R & V & _ & O & _).
  exists r, st'. split; [exact R |]. split; [exact V | exact O].
Defined.

Lemma current_mode_tail_run (pv : value) (s1 : driver) :
  exists st',
    (__setSourceMode true ;;; setProtectionVoltage pv ;;; _configCurrent 0) s1
      = Ok (tt, st') /\
    log st' = (log s1 ++ mode_events "CURR" "VOLT" ++
               [Write "VOLT:PROT" pv] ++ curr_events (clamp 0))%list /\
    cached "SOURCE:FUNC" st' = Some (VStr "CURR") /\
    cached "VOLT:PROT" st' = Some pv /\
    _latestVoltageVal st' = _latestVoltageVal s1.
Proof.
  unfold __setSourceMode, setProtectionVoltage, _configCurrent. fold (clamp 0).
  unfold bind. rewrite clamp_nonzero. cbn.
  eexists. split; [reflexivity |]. cbn.
  split; [| split; [| split]].
  - rewrite <- !app_assoc. reflexivity.
  - unfold cached. cbn. simplify_map_eq. reflexivity.
  - unfold cached. cbn. simplify_map_eq. reflexivity.
  - reflexivity.
Qed.

Lemma voltage_mode_tail_run (pc : value) (s1 : driver) :
  exists st',
    (__setSourceMode false ;;; setProtectionCurrent pc ;;; _configVoltage 0) s1
      = Ok (tt, st') /\
    log st' = (log s1 ++ mode_events "VOLT" "CURR" ++
               [Write "CURR:PROT" pc; Write "SOURCE:VOLT" (VNum 0)])%list /\
    cached "SOURCE:FUNC" st' = Some (VStr "VOLT") /\
    cached "CURR:PROT" st' = Some pc /\
    _latestVoltageVal st' = 0 /\
    _latestCurrentVal st' = _latestCurrentVal s1.
Proof.
  unfold __setSourceMode, setProtectionCurrent, _configVoltage.
  unfold bind. cbn.
  eexists. split; [reflexivity |]. cbn.
  split; [| split; [| split; [| split]]].
  - rewrite <- !app_assoc. reflexivity.
  - unfold cached. cbn. simplify_map_eq. reflexivity.
  - unfold cached. cbn. simplify_map_eq. reflexivity.
  - reflexivity.
  - reflexivity.
Qed.

Lemma cached_answers (key : string) (v : value) (st : driver) :
  cached key st = Some v -> getConfigParam key false st = Ok (v, st).
Proof.
  unfold cached, getConfigParam, bind, gets, id. now intros ->.
Qed.

(** X8: [setCurrentMode] switches the output off before it touches the
    mode. With usable step sizes it returns; its traffic is the ramp of
    [enable(False)], the write of 0 to [OUTP:STATE] and its read-back, the six
    mode writes sourcing CURR and sensing VOLT, the protection voltage, and
    the zero request clamped to 1e-6. The output is never switched on again,
    and afterwards the cache answers [CURR] for the source function and the
    given limit for the protection voltage without asking the instrument. *)
Theorem setCurrentMode_switches_off_then_configures (pv : value) (st : driver) :
  steps_usable st ->
  exists st' pre,
    setCurrentMode pv st = Ok (tt, st') /\
    emitted st st' =
      (pre ++ [Write "OUTP:STATE" (VNum 0); HwRead "OUTP:STATE"] ++
       mode_events "CURR" "VOLT" ++ [Write "VOLT:PROT" pv] ++
       curr_events (clamp 0))%list /\
    Forall ramp_event pre /\
    written "OUTP:STATE" (emitted st st') = [VNum 0] /\
    source_func st' = VStr "CURR" /\
    protectionVoltage st' = Ok (pv, st').
Proof.
  intros Hsteps.
  destruct (enable_false_run st Hsteps) as (r & s1 & pre & R1 & L1 & Hpre & _).
  destruct (current_mode_tail_run pv s1) as (st' & R2 & L2 & Hf & Hp & _).
  exists st', pre.
  assert (E : emitted st st' =
      (pre ++ [Write "OUTP:STATE" (VNum 0); HwRead "OUTP:STATE"] ++
       mode_events "CURR" "VOLT" ++ [Write "VOLT:PROT" pv] ++
       curr_events (clamp 0))%list).
  { apply emitted_app. rewrite L2, L1, <- !app_assoc. reflexivity. }
  conjs.
  - unfold setCurrentMode. unfold bind at 1. rewrite R1. exact R2.
  - exact E.
  - exact Hpre.
  - rewrite E, written_app.
    rewrite (written_none "OUTP:STATE" pre)
      by (apply ramp_event_not_write_to; [discriminate | discriminate | exact Hpre]).
    reflexivity.
  - unfold source_func. unfold cached in Hf. now rewrite Hf.
  - now apply cached_answers.
Qed.

Lemma setCurrentMode_switches_off_then_configures_witness :
  steps_usable bench_volt /\
  exists st',
    setCurrentMode (VNum 2) bench_volt = Ok (tt, st') /\
    written "OUTP:STATE" (emitted bench_volt st') = [VNum 0] /\
    source_func st' = VStr "CURR" /\
    protectionVoltage st' = Ok (VNum 2, st').
Proof.
  assert (H : steps_usable bench_volt).
  { split; right; eexists; (split; [vm_compute; reflexivity | reflexivity]). }
  split; [exact H |].
  destruct (setCurrentMode_switches_off_then_configures (VNum 2) bench_volt H)
    as (st' & pre & R & _ & _ & O & F & P).
  exists st'. conjs; assumption.
Defined.

(** X9: [setVoltageMode] switches the output off before it touches the
    mode. With usable step sizes it returns; its traffic is the ramp of
    [enable(False)], the write of 0 to [OUTP:STATE] and its read-back, the six
    mode writes sourcing VOLT and sensing CURR, the protection current, and
    a write of 0 to [SOURCE:VOLT] with no range write. The persisted voltage
    is 0 afterwards, and the cache answers [VOLT] for the source function and
    the given limit for the protection current. *)
Theorem setVoltageMode_switches_off_then_configures (pc : value) (st : driver) :
  steps_usable st ->
  exists st' pre,
    setVoltageMode pc st = Ok (tt, st') /\
    emitted st st' =
      (pre ++ [Write "OUTP:STATE" (VNum 0); HwRead "OUTP:STATE"] ++
       mode_events "VOLT" "CURR" ++
       [Write "CURR:PROT" pc; Write "SOURCE:VOLT" (VNum 0)])%list /\
    Forall ramp_event pre /\
    written "OUTP:STATE" (emitted st st') = [VNum 0] /\
    written "SOURCE:VOLT:RANGE" (emitted st st') = [] /\
    _latestVoltageVal st' = 0 /\
    source_func st' = VStr "VOLT" /\
    protectionCurrent st' = Ok (pc, st').
Proof.
  intros Hsteps.
  destruct (enable_false_run st Hsteps) as (r & s1 & pre & R1 & L1 & Hpre & _).
  destruct (voltage_mode_tail_run pc s1) as (st' & R2 & L2 & Hf & Hp & Hv & _).
  exists st', pre.
  assert (E : emitted st st' =
      (pre ++ [Write "OUTP:STATE" (VNum 0); HwRead "OUTP:STATE"] ++
       mode_events "VOLT" "CURR" ++
       [Write "CURR:PROT" pc; Write "SOURCE:VOLT" (VNum 0)])%list).
  { apply emitted_app. rewrite L2, L1, <- !app_assoc. reflexivity. }
  conjs.
  - unfold setVoltageMode. unfold bind at 1. rewrite R1. exact R2.
  - exact E.
  - exact Hpre.
  - rewrite E, written_app.
    rewrite (written_none "OUTP:STATE" pre)
      by (apply ramp_event_not_write_to; [discriminate | discriminate | exact Hpre]).
    reflexivity.
  - rewrite E, written_app.
    rewrite (written_none "SOURCE:VOLT:RANGE" pre)
      by (apply ramp_event_not_write_to; [discriminate | discriminate | exact Hpre]).
    reflexivity.
  - exact Hv.
  - unfold source_func. unfold cached in Hf. now rewrite Hf.
  - now apply cached_answers.
Qed.

Lemma setVoltageMode_switches_off_then_configures_witness :
  steps_usable bench_on /\
  exists st',
    setVoltageMode (VNum (1 # 20)) bench_on = Ok (tt, st') /\
    written "OUTP:STATE" (emitted bench_on st') = [VNum 0] /\
    _latestVoltageVal st' = 0 /\
    source_func st' = VStr "VOLT".
Proof.
  assert (H : steps_usable bench_on).
  { split; right; eexists; (split; [vm_compute; reflexivity | reflexivity]). }
  split; [exact H |].
  destruct (setVoltageMode_switches_off_then_configures (VNum (1 # 20)) bench_on H)
    as (st' & pre & R & _ & _ & O & _ & V & F & _).
  exists st'. conjs; assumption.
Defined.

(** ** What an operation leaves as it found it *)

Section Preserves.
Context {B : Type} (f : driver -> B).

Lemma preserves_ret {A} (a : A) : preserves f (ret a).
Proof. intros st a' st' H. now injection H as _ <-. Qed.

Lemma preserves_gets {A} (g : driver -> A) : preserves f (gets g).
Proof. intros st a' st' H. now injection H as _ <-. Qed.

Lemma preserves_lift {A} (r : res A) : preserves f (lift r).
Proof. intros st a' st' H. destruct r; [| discriminate]. now injection H as _ <-. Qed.

Lemma preserves_bind {A C} (c : M A) (k : A -> M C) :
  preserves f c -> (forall a, preserves f (k a)) -> preserves f (bind c k).
Proof.
  intros Hc Hk st b st' H.
  apply bind_Ok in H as (a & s1 & H1 & H2).
  rewrite (Hk _ _ _ _ H2). exact (Hc _ _ _ H1).
Qed.

Lemma preserves_for_each {A} (xs : list A) (body : A -> M unit) :
  (forall x, preserves f (body x)) -> preserves f (for_each xs body).
Proof.
  intros Hb. induction xs as [| x xs IH]; cbn [for_each].
  - apply preserves_ret.
  - apply preserves_bind; [apply Hb | intros _; exact IH].
Qed.
End Preserves.

Lemma preserves_setpoints_emit (e : event) : preserves setpoints (emit e).
Proof. intros st a st' H. now injection H as _ <-. Qed.

Lemma preserves_setpoints_getConfigParam (key : string) (force : bool) :
  preserves setpoints (getConfigParam key force).
Proof.
  intros st v st' H. unfold getConfigParam, bind, gets, id, emit in H. cbn in H.
  destruct force; [| destruct (config st !! key)]; now injection H as _ <-.
Qed.

Lemma preserves_cached_setConfigParam (key k : string) (v : value) :
  k <> key -> preserves (cached key) (setConfigParam k v).
Proof.
  intros Hne st a st' H. unfold setConfigParam, bind, gets, emit in H. cbn in H.
  injection H as _ <-. unfold cached. cbn [config]. now rewrite lookup_insert_ne.
Qed.

Lemma preserves_cached_getConfigParam (key k : string) (force : bool) :
  k <> key -> preserves (cached key) (getConfigParam k force).
Proof.
  intros Hne st v st' H. unfold getConfigParam, bind, gets, id, emit in H. cbn in H.
  destruct force; [| destruct (config st !! k)]; injection H as _ <-;
    unfold cached; cbn [config]; try reflexivity; now rewrite lookup_insert_ne.
Qed.

Lemma preserves_cached_emit (key : string) (e : event) : preserves (cached key) (emit e).
Proof. intros st a st' H. now injection H as _ <-. Qed.

Section PreservesCached.
Context (key : string).
Hypothesis not_range : "SOURCE:CURR:RANGE" <> key.
Hypothesis not_curr : "SOURCE:CURR" <> key.
Hypothesis not_state : "OUTP:STATE" <> key.
Hypothesis not_func : "SOURCE:FUNC" <> key.

Lemma preserves_cached__configCurrent (x : Q) : preserves (cached key) (_configCurrent x).
Proof.
  unfold _configCurrent.
  apply preserves_bind; [| intros _; apply preserves_bind; [| intros _]].
  - destruct (negb _); [now apply preserves_cached_setConfigParam | apply preserves_ret].
  - now apply preserves_cached_setConfigParam.
  - intros st a st' H. now injection H as _ <-.
Qed.

Lemma preserves_cached_enable_get : preserves (cached key) enable_get.
Proof.
  unfold enable_get, enable_with.
  apply preserves_bind; [apply preserves_ret | intros _].
  apply preserves_bind; [apply preserves_ret | intros _].
  apply preserves_bind; [now apply preserves_cached_getConfigParam | intros v].
  apply preserves_ret.
Qed.

Lemma preserves_cached_setCurrent (b : Q) : preserves (cached key) (setCurrent b).
Proof.
  unfold setCurrent.
  apply preserves_bind; [apply preserves_gets | intros a].
  apply preserves_bind; [apply preserves_cached_enable_get | intros on].
  apply preserves_bind; [apply preserves_gets | intros step].
  destruct (negb on), step as [step |]; try apply preserves_cached__configCurrent.
  apply preserves_bind; [apply preserves_lift | intros n].
  apply preserves_bind; [apply preserves_lift | intros pts].
  apply preserves_for_each. intros x. apply preserves_cached__configCurrent.
Qed.

Lemma preserves_cached_setVoltage (b : Q) : preserves (cached key) (setVoltage b).
Proof.
  unfold setVoltage.
  apply preserves_bind; [apply preserves_gets | intros a].
  apply preserves_bind; [apply preserves_cached_enable_get | intros on].
  apply preserves_bind; [apply preserves_gets | intros step].
  destruct (negb on), step as [step |]; try apply preserves_cached__configCurrent.
  apply preserves_bind; [apply preserves_lift | intros n].
  apply preserves_bind; [apply preserves_lift | intros pts].
  apply preserves_for_each. intros x. apply preserves_cached__configCurrent.
Qed.

Lemma preserves_cached_enable (newState : option bool) :
  preserves (cached key) (enable newState).
Proof.
  unfold enable, enable_with.
  apply preserves_bind; [| intros _; apply preserves_bind; [| intros _]].
  - destruct newState as [[] |]; try apply preserves_ret.
    apply preserves_bind; [now apply preserves_cached_getConfigParam | intros func].
    destruct (py_eq func (VStr "CURR"));
      [apply preserves_cached_setCurrent | apply preserves_cached_setVoltage].
  - destruct newState as [b |]; [| apply preserves_ret].
    now apply preserves_cached_setConfigParam.
  - apply preserves_bind; [now apply preserves_cached_getConfigParam | intros v].
    apply preserves_ret.
Qed.
End PreservesCached.

(** ** Protection limits *)

(** X11: a protection limit that was set is what the driver reads back,
    from its cache and with no traffic, and it stays so through setpoint
    changes and output switching; setting one limit leaves the other one's
    cache entry alone. *)
Theorem protection_limits_round_trip
    (v : value) (b : Q) (newState : option bool) (st : driver) :
  (exists st1,
      setProtectionVoltage v st = Ok (tt, st1) /\
      emitted st st1 = [Write "VOLT:PROT" v] /\
      protectionVoltage st1 = Ok (v, st1) /\
      cached "CURR:PROT" st1 = cached "CURR:PROT" st /\
      (forall st2, setCurrent b st1 = Ok (tt, st2) -> protectionVoltage st2 = Ok (v, st2)) /\
      (forall st2, setVoltage b st1 = Ok (tt, st2) -> protectionVoltage st2 = Ok (v, st2)) /\
      (forall r st2, enable newState st1 = Ok (r, st2) -> protectionVoltage st2 = Ok (v, st2))) /\
  (exists st1,
      setProtectionCurrent v st = Ok (tt, st1) /\
      emitted st st1 = [Write "CURR:PROT" v] /\
      protectionCurrent st1 = Ok (v, st1) /\
      cached "VOLT:PROT" st1 = cached "VOLT:PROT" st /\
      (forall st2, setCurrent b st1 = Ok (tt, st2) -> protectionCurrent st2 = Ok (v, st2)) /\
      (forall st2, setVoltage b st1 = Ok (tt, st2) -> protectionCurrent st2 = Ok (v, st2)) /\
      (forall r st2, enable newState st1 = Ok (r, st2) -> protectionCurrent st2 = Ok (v, st2))).
Proof.
  split.
  - eexists. split; [reflexivity |].
    match goal with |- context [cached "CURR:PROT" ?s = _] => set (st1 := s) end.
    assert (Hc : cached "VOLT:PROT" st1 = Some v)
      by (unfold cached, st1; cbn; apply lookup_insert_eq).
    conjs.
    + apply emitted_app. reflexivity.
    + now apply cached_answers.
    + unfold cached, st1. cbn. now rewrite lookup_insert_ne.
    + intros st2 H. apply cached_answers.
      rewrite (preserves_cached_setCurrent "VOLT:PROT" ltac:(discriminate)
                 ltac:(discriminate) ltac:(discriminate) b _ _ _ H). exact Hc.
    + intros st2 H. apply cached_answers.
      rewrite (preserves_cached_setVoltage "VOLT:PROT" ltac:(discriminate)
                 ltac:(discriminate) ltac:(discriminate) b _ _ _ H). exact Hc.
    + intros r st2 H. apply cached_answers.
      rewrite (preserves_cached_enable "VOLT:PROT" ltac:(discriminate)
                 ltac:(discriminate) ltac:(discriminate) ltac:(discriminate)
                 newState _ _ _ H). exact Hc.
  - eexists. split; [reflexivity |].
    match goal with |- context [cached "VOLT:PROT" ?s = _] => set (st1 := s) end.
    assert (Hc : cached "CURR:PROT" st1 = Some v)
      by (unfold cached, st1; cbn; apply lookup_insert_eq).
    conjs.
    + apply emitted_app. reflexivity.
    + now apply cached_answers.
    + unfold cached, st1. cbn. now rewrite lookup_insert_ne.
    + intros st2 H. apply cached_answers.
      rewrite (preserves_cached_setCurrent "CURR:PROT" ltac:(discriminate)
                 ltac:(discriminate) ltac:(discriminate) b _ _ _ H). exact Hc.
    + intros st2 H. apply cached_answers.
      rewrite (preserves_cached_setVoltage "CURR:PROT" ltac:(discriminate)
                 ltac:(discriminate) ltac:(discriminate) b _ _ _ H). exact Hc.
    + intros r st2 H. apply cached_answers.
      rewrite (preserves_cached_enable "CURR:PROT" ltac:(discriminate)
                 ltac:(discriminate) ltac:(discriminate) ltac:(discriminate)
                 newState _ _ _ H). exact Hc.
Qed.

(** X12: a constructed driver remembers the constructor's limits. After
    [__init__] the log holds the two protection writes and nothing else,
    both limits are answered from the cache, the step sizes are the ones
    passed and both persisted setpoints are 0; a voltage measurement taken
    right away is compared with the constructor's protection voltage, and
    its warning, if any, reports a power of 0. *)
Theorem constructed_driver_remembers_limits
    (lv : Q) (pc : value) (cStep vStep : option Q) (dev : instrument)
    (field : string) (v : Q) :
  exists st,
    __init__ (VNum lv) pc cStep vStep (fresh dev) = Ok (tt, st) /\
    log st = [Write "VOLT:PROT" (VNum lv); Write "CURR:PROT" pc] /\
    protectionVoltage st = Ok (VNum lv, st) /\
    protectionCurrent st = Ok (pc, st) /\
    setpoints st = (0, 0, cStep, vStep) /\
    (index (split "," (reply_to "MEASURE:VOLT?" st)) 0 = Ok field ->
     float field = Ok v ->
     exists st',
       measVoltage st = Ok (v, st') /\
       emitted st st' =
         Query "MEASURE:VOLT?" ::
         (if Qle_bool lv v
          then warning "Warning: Keithley compliance voltage of" (VNum lv) (v * 0 * (1 # 1000))
          else [])).
Proof.
  eexists. split; [reflexivity |].
  match goal with |- log ?s = _ /\ _ => set (st := s) end.
  assert (Hv : cached "VOLT:PROT" st = Some (VNum lv)).
  { unfold cached, st. cbn. rewrite lookup_insert_ne by discriminate.
    apply lookup_insert_eq. }
  assert (Hc : cached "CURR:PROT" st = Some pc).
  { unfold cached, st. cbn. apply lookup_insert_eq. }
  conjs; try reflexivity; try (now apply cached_answers).
  intros Hf Hfl.
  destruct (measVoltage_run st field v lv Hf Hfl Hv) as (st' & R & L).
  exists st'. split; [exact R |]. now apply emitted_app.
Qed.

(** ** Malformed replies *)


Section RaisesOnly.
Context (P : exn -> Prop).






End RaisesOnly.








(** ** What a measurement leaves alone *)

Lemma no_writes_filter (evs : list event) :
  Forall (fun e => is_write e = false) evs -> List.filter is_write evs = [].
Proof.
  induction 1 as [| e evs He _ IH]; [reflexivity |].
  cbn [List.filter]. now rewrite He.
Qed.

Lemma emits_query (P : event -> Prop) (cmd : string) :
  P (Query cmd) -> emits P (query cmd).
Proof.
  intros H. unfold query.
  apply emits_bind; [apply emits_gets | intros s].
  apply emits_bind; [now apply emits_emit | intros _]. apply emits_ret.
Qed.

Lemma preserves_setpoints_query (cmd : string) : preserves setpoints (query cmd).
Proof.
  unfold query.
  apply preserves_bind; [apply preserves_gets | intros s].
  apply preserves_bind; [apply preserves_setpoints_emit | intros _]. apply preserves_ret.
Qed.

(** The part of a measurement that follows the query. *)
Lemma after_query_quiet (what : string) (key : string) (latest : driver -> Q)
    (retStr : string) (n : nat) :
  let rest :=
    (field <- lift (index (split "," retStr) n) ;;
     v <- lift (float field) ;;
     limit <- getConfigParam key false ;;
     over <- lift (py_ge v limit) ;;
     (if over then
        limit' <- getConfigParam key false ;;
        print [VStr what; limit'; VStr "reached."] ;;;
        latest' <- gets latest ;;
        print [VStr "Warning: You are sourcing";
               VNum (v * latest' * (1 # 1000))%Q;
               VStr "mW into the load."]
      else ret tt) ;;;
     ret v) in
  emits (fun e => is_write e = false) rest /\ preserves setpoints rest.
Proof.
  cbv zeta. split.
  - apply emits_bind; [apply emits_lift | intros field].
    apply emits_bind; [apply emits_lift | intros v].
    apply emits_bind; [now apply emits_getConfigParam | intros limit].
    apply emits_bind; [apply emits_lift | intros over].
    apply emits_bind; [| intros _; apply emits_ret].
    destruct over; [| apply emits_ret].
    apply emits_bind; [now apply emits_getConfigParam | intros limit'].
    apply emits_bind; [now apply emits_emit | intros _].
    apply emits_bind; [apply emits_gets | intros l].
    now apply emits_emit.
  - apply preserves_bind; [apply preserves_lift | intros field].
    apply preserves_bind; [apply preserves_lift | intros v].
    apply preserves_bind; [apply preserves_setpoints_getConfigParam | intros limit].
    apply preserves_bind; [apply preserves_lift | intros over].
    apply preserves_bind; [| intros _; apply preserves_ret].
    destruct over; [| apply preserves_ret].
    apply preserves_bind; [apply preserves_setpoints_getConfigParam | intros limit'].
    apply preserves_bind; [apply preserves_setpoints_emit | intros _].
    apply preserves_bind; [apply preserves_gets | intros l].
    apply preserves_setpoints_emit.
Qed.

Lemma query_log (cmd : string) (st s1 : driver) (r : string) :
  query cmd st = Ok (r, s1) ->
  log s1 = (log st ++ [Query cmd])%list /\ setpoints s1 = setpoints st.
Proof.
  unfold query, bind, gets, id, emit, ret. cbn. intros H.
  injection H as _ <-. split; reflexivity.
Qed.

(** X14: a measurement only asks. Whenever [measVoltage] or [measCurrent]
    returns, what it sent starts with its query and holds no parameter write
    at all, and the persisted setpoints and the step sizes are what they
    were. *)
Theorem measurements_only_ask (st : driver) :
  (forall v st', measVoltage st = Ok (v, st') ->
     (exists evs, emitted st st' = Query "MEASURE:VOLT?" :: evs) /\
     List.filter is_write (emitted st st') = [] /\
     setpoints st' = setpoints st) /\
  (forall i st', measCurrent st = Ok (i, st') ->
     (exists evs, emitted st st' = Query "MEASURE:CURR?" :: evs) /\
     List.filter is_write (emitted st st') = [] /\
     setpoints st' = setpoints st).
Proof.
  split.
  - intros v st' H. unfold measVoltage in H.
    apply bind_Ok in H as (retStr & s1 & Hq & H).
    destruct (query_log _ _ _ _ Hq) as [L1 S1].
    destruct (after_query_quiet "Warning: Keithley compliance voltage of"
                "VOLT:PROT" _latestCurrentVal retStr 0) as [He Hp].
    destruct (He _ _ _ H) as (evs & L & F).
    assert (E : emitted st st' = Query "MEASURE:VOLT?" :: evs).
    { apply emitted_app. rewrite L, L1, <- app_assoc. reflexivity. }
    split; [now exists evs |]. split.
    + rewrite E. cbn [List.filter is_write]. now apply no_writes_filter.
    + rewrite (Hp _ _ _ H). exact S1.
  - intros i st' H. unfold measCurrent in H.
    apply bind_Ok in H as (retStr & s1 & Hq & H).
    destruct (query_log _ _ _ _ Hq) as [L1 S1].
    destruct (after_query_quiet "Warning: Keithley compliance current of"
                "CURR:PROT" _latestVoltageVal retStr 1) as [He Hp].
    destruct (He _ _ _ H) as (evs & L & F).
    assert (E : emitted st st' = Query "MEASURE:CURR?" :: evs).
    { apply emitted_app. rewrite L, L1, <- app_assoc. reflexivity. }
    split; [now exists evs |]. split.
    + rewrite E. cbn [List.filter is_write]. now apply no_writes_filter.
    + rewrite (Hp _ _ _ H). exact S1.
Qed.
